(** * koa-happy-router: middleware selection, ordering and the error boundary

    A shallow embedding of [lib/constants.ts], of the [HappyRouter] class
    of [lib/index.ts] and of the timestamp helpers of [lib/logger.ts], with
    the properties of route compilation ([addRoutes]), of the ordering
    declaration ([sortMiddlewares]), of the handler wrapper
    ([createHandler]) and of the timestamp ([formatTimestamp]).

    Conventions of the embedding.
    - A JavaScript object used as a record (a route, the argument of
      [registerMiddlewares]) is the list of its own enumerable properties in
      the order [Object.keys] enumerates them.  An object has no two
      properties of the same name; [route_object] states it, and no result
      below depends on it.
    - [this.middlewaresStack] (a [Map], only read by [has] and [get]) is a
      [gmap]; [this.middlewaresKeys] (a [Set], iterated in insertion order)
      is the list of its members in insertion order.
    - The request context is a mutable object shared along a chain: it is
      threaded as a state of type [Ctx].  An [async] call either completes
      or fails with a value (a synchronous [throw] and a rejected promise
      are the same to [await]); its [Outcome] is the context it leaves and
      the failure, if any.
    - [koa-router] is an external collaborator: the router instance is the
      options it was built with and the calls made on it, in order.  A verb
      method reads its arguments as [koa-router] does (a name before the
      path when the second argument is a string) and refuses a middleware
      that is not a function; the syntax of paths is not modelled.
    - A registered middleware is a function of its options, as its type
      has it: applied to any value it gives a middleware. *)

From stdpp Require Import gmap strings list fin_maps pretty.

Open Scope string_scope.
Open Scope list_scope.

(** ** lib/constants.ts *)

(** [enum REQUEST_METHODS]: member name, member value. *)
Definition REQUEST_METHODS : list (string * string) :=
  [ ("ALL", "all"); ("GET", "get"); ("PUT", "put"); ("POST", "post");
    ("PATCH", "patch"); ("DELETE", "delete"); ("OPTIONS", "options") ].

Definition INITIAL_METHOD : string := "ALL".

Definition INITIAL_ROUTE_FIELDS : list string :=
  [ "url"; "method"; "middlewares"; "handler" ].

(** Own property [key] of an object, if it has one. *)
Fixpoint own_property {V : Type} (o : list (string * V)) (key : string)
  : option V :=
  match o with
  | [] => None
  | (k, v) :: o' => if decide (k = key) then Some v else own_property o' key
  end.

(** [Object.keys(o)]. *)
Definition Object_keys {V : Type} (o : list (string * V)) : list string :=
  o.*1.

(** [Array.prototype.includes] on an array of strings. *)
Definition includes (l : list string) (key : string) : bool :=
  bool_decide (key ∈ l).

(** [Set.prototype.add] on a set kept in insertion order. *)
Definition Set_add (s : list string) (key : string) : list string :=
  if decide (key ∈ s) then s else s ++ [key].

Section HappyRouter.

(** The state of a request context and the values user code throws. *)
Context {Ctx Err : Type}.

(** ** Values and callbacks *)

(** What is thrown: a [TypeError] of the language (calling what is not a
    function, spreading what is not iterable), an [Error] of the external
    router, or a value thrown by user code. *)
Inductive Error : Type :=
| TypeError (msg : string)
| RouterError (msg : string)
| Thrown (e : Err).

Definition Outcome : Type := Ctx * option Error.

(** [Application.Next]: the rest of the chain. *)
Definition Next : Type := Ctx → Outcome.

(** [(ctx, next) => Promise<void>], an element of [RouteMiddlewares]. *)
Definition Middleware : Type := Ctx → Next → Outcome.

(** [type RouteHandler]. *)
Definition RouteHandler : Type := Ctx → Next → Outcome.

(** [type ErrorHandler], a function that returns nothing: [createHandler]
    calls it with the error and the context and does not await it, so its
    outcome is what the call itself does. *)
Definition ErrorHandler : Type := Error → Ctx → Outcome.

(** The values a route property holds: primitives, a handler function, an
    array of route middlewares. *)
Inductive Value : Type :=
| VUndefined
| VNull
| VBool (b : bool)
| VNumber (n : Z)
| VString (s : string)
| VFunction (h : RouteHandler)
| VArray (ms : list Middleware).

(** [type Middlewares]: a curried middleware, from its options. *)
Definition Middlewares : Type := Value → Middleware.

(** ToBoolean. *)
Definition truthy (v : Value) : bool :=
  match v with
  | VUndefined | VNull => false
  | VBool b => b
  | VNumber n => negb (n =? 0)%Z
  | VString s => negb (bool_decide (s = ""))
  | VFunction _ | VArray _ => true
  end.

(** [type Route<T>]: an object; [T] contributes the properties other than
    [url], [handler], [middlewares] and [method]. *)
Definition Route : Type := list (string * Value).

(** [route[key]], [route.key]. *)
Definition get (route : Route) (key : string) : Value :=
  default VUndefined (own_property route key).

(** The shape [Route<T>] declares: [url] a string, [method] absent or a
    member name of [REQUEST_METHODS], [handler] absent or a function,
    [middlewares] absent or an array.  The embedding does not assume it:
    every property is read as JavaScript does for every [Value]. *)
Definition Route_typed (route : Route) : Prop :=
  (∃ s, get route "url" = VString s)
  ∧ (get route "method" = VUndefined
     ∨ ∃ s, get route "method" = VString s
            ∧ s ∈ Object_keys REQUEST_METHODS)
  ∧ (get route "handler" = VUndefined
     ∨ ∃ h, get route "handler" = VFunction h)
  ∧ (get route "middlewares" = VUndefined
     ∨ ∃ ms, get route "middlewares" = VArray ms).

Definition route_object (route : Route) : Prop := NoDup (Object_keys route).

(** ** The external router *)

(** What a call of a verb method ([router.get(url, ...chain)] and the
    like) registers: the method, the name of the route ([null] when it has
    none), the path and the middlewares. *)
Record Layer : Type := {
  layer_method : string;
  layer_name : Value;
  layer_path : Value;
  layer_stack : list Middleware;
}.

Inductive RouterCall : Type :=
| Use (middleware : list Middleware)
| Verb (layer : Layer).

Record KoaRouter : Type := {
  router_prefix : option string;
  router_strict : option bool;
  router_methods : option (list string);
  router_calls : list RouterCall;
}.

Definition KoaRouter_call (c : RouterCall) (router : KoaRouter) : KoaRouter :=
  {| router_prefix := router_prefix router;
     router_strict := router_strict router;
     router_methods := router_methods router;
     router_calls := router_calls router ++ [c] |}.

(** ** class HappyRouter *)

(** [interface RouterOptions]. *)
Record RouterOptions : Type := {
  opt_prefix : option string;
  opt_env : option string;
  opt_strict : option bool;
  opt_logger : option bool;
  opt_methods : option (list string);
  opt_errorHandler : option ErrorHandler;
}.

Record HappyRouter : Type := {
  enableLogger : bool;
  errorHandler : option ErrorHandler;
  routerInstance : KoaRouter;
  middlewaresKeys : list string;
  middlewaresStack : gmap string Middlewares;
}.

(** [lib/logger.ts], installed by the constructor when [logger] is set. *)
Variable requestLogger : Middleware.

(** [constructor(options?: RouterOptions)]. *)
Definition new_HappyRouter (options : option RouterOptions) : HappyRouter :=
  let logger := default false (options ≫= opt_logger) in
  let router :=
    {| router_prefix := options ≫= opt_prefix;
       router_strict := options ≫= opt_strict;
       router_methods := options ≫= opt_methods;
       router_calls := [] |} in
  {| enableLogger := logger;
     errorHandler := options ≫= opt_errorHandler;
     routerInstance :=
       if logger then KoaRouter_call (Use [requestLogger]) router else router;
     middlewaresKeys := [];
     middlewaresStack := ∅ |}.

(** [await handler(context, next)], for whatever [handler] holds. *)
Definition call (handler : Value) (context : Ctx) (next : Next) : Outcome :=
  match handler with
  | VFunction h => h context next
  | _ => (context, Some (TypeError "handler is not a function"))
  end.

(** [private async createHandler(handler, context, next)]. *)
Definition createHandler (this : HappyRouter) (handler : Value)
    (context : Ctx) (next : Next) : Outcome :=
  match errorHandler this with
  | Some errorHandler =>
      match call handler context next with
      | (context', Some error) => errorHandler error context'
      | (context', None) => (context', None)
      end
  | None => call handler context next
  end.

(** What a statement of the setup phase does: complete, or throw. *)
Inductive Completion (A : Type) : Type :=
| Normal (a : A)
| Throw (error : Error).
Global Arguments Normal {A} a.
Global Arguments Throw {A} error.

(** [Array.prototype.map] with a callback that may throw. *)
Fixpoint Array_map {A B : Type} (f : A → Completion B) (l : list A)
  : Completion (list B) :=
  match l with
  | [] => Normal []
  | x :: l' =>
      match f x with
      | Throw error => Throw error
      | Normal y =>
          match Array_map f l' with
          | Throw error => Throw error
          | Normal ys => Normal (y :: ys)
          end
      end
  end.

(** The functions of a list of arguments, when all of them are
    functions. *)
Fixpoint functions (arguments : list Value) : option (list Middleware) :=
  match arguments with
  | [] => Some []
  | VFunction f :: arguments' => cons f <$> functions arguments'
  | _ :: _ => None
  end.

(** The layer [router[routeMethod](...arguments)] makes, as [koa-router]
    reads its arguments: [(name, path, ...middleware)] when the second one
    is a string, [(path, ...middleware)] otherwise; it throws an [Error]
    when a middleware is not a function.  What the router makes of the
    path (its pattern syntax, what it does when the path is no string) is
    the router's and is not modelled: the properties that say which layer
    is registered are stated for a [url] that is a string. *)
Definition KoaRouter_layer (routeMethod : string) (arguments : list Value)
  : Completion Layer :=
  let '(name, path, middleware) :=
    match arguments with
    | name :: VString path :: middleware =>
        (if truthy name then name else VNull, VString path, middleware)
    | path :: middleware => (VNull, path, middleware)
    | [] => (VNull, VUndefined, [])
    end in
  match functions middleware with
  | Some stack =>
      Normal {| layer_method := routeMethod;
                layer_name := name;
                layer_path := path;
                layer_stack := stack |}
  | None => Throw (RouterError "middleware must be a function")
  end.

(** [router[routeMethod](...arguments)]. *)
Definition KoaRouter_verb (routeMethod : string) (arguments : list Value)
    (router : KoaRouter) : Completion KoaRouter :=
  match KoaRouter_layer routeMethod arguments with
  | Throw error => Throw error
  | Normal layer => Normal (KoaRouter_call (Verb layer) router)
  end.

(** The characters of a string, as iterating it gives them (one for each
    [ascii] of the string). *)
Fixpoint characters (s : string) : list Value :=
  match s with
  | EmptyString => []
  | String c s' => VString (String c "") :: characters s'
  end.

(** *** addRoutes, one route *)

(** [REQUEST_METHODS[route.method || INITIAL_METHOD]], then
    [routerInstance[routeMethod].bind(routerInstance)]: the router has a
    method for each member value of the enum; for anything else the
    lookup is [undefined] and [.bind] throws. *)
Definition addRoutes_routeMethod (route : Route) : Completion string :=
  let method := get route "method" in
  match (if truthy method then method else VString INITIAL_METHOD) with
  | VString name =>
      match own_property REQUEST_METHODS name with
      | Some routeMethod => Normal routeMethod
      | None => Throw (TypeError "routerInstance[routeMethod] is undefined")
      end
  | _ => Throw (TypeError "routerInstance[routeMethod] is undefined")
  end.

(** [const routeMiddlewaresKeys]. *)
Definition addRoutes_routeMiddlewaresKeys (this : HappyRouter) (route : Route)
  : list string :=
  filter
    (λ key, negb (includes INITIAL_ROUTE_FIELDS key)
            && bool_decide (is_Some (middlewaresStack this !! key)))
    (Object_keys route).

(** [const middlewaresKeys]. *)
Definition addRoutes_middlewaresKeys (this : HappyRouter) (route : Route)
  : list string :=
  let routeMiddlewaresKeys := addRoutes_routeMiddlewaresKeys this route in
  if (0 <? length (middlewaresKeys this))%nat
  then filter (λ key, includes routeMiddlewaresKeys key) (middlewaresKeys this)
  else routeMiddlewaresKeys.

(** The callback of [middlewaresKeys.map]: [this.middlewaresStack.get(key)]
    applied to [route[key]]; calling [undefined] throws. *)
Definition addRoutes_instance (this : HappyRouter) (route : Route)
    (key : string) : Completion Middleware :=
  match (middlewaresStack this !! key : option Middlewares) with
  | Some middlewareInstance => Normal (middlewareInstance (get route key))
  | None => Throw (TypeError "middlewareInstance is not a function")
  end.

(** [...(route.middlewares || [])]: the elements of an array, the
    characters of a string, nothing for a falsy value; spreading anything
    else throws. *)
Definition route_middlewares (route : Route) : Completion (list Value) :=
  let middlewares := get route "middlewares" in
  if truthy middlewares
  then match middlewares with
       | VArray ms => Normal (VFunction <$> ms)
       | VString s => Normal (characters s)
       | _ => Throw (TypeError "route.middlewares is not iterable")
       end
  else Normal [].

(** [const routeMiddlewares]. *)
Definition addRoutes_routeMiddlewares (this : HappyRouter) (route : Route)
  : Completion (list Value) :=
  match Array_map (addRoutes_instance this route)
                  (addRoutes_middlewaresKeys this route) with
  | Throw error => Throw error
  | Normal instances =>
      match route_middlewares route with
      | Throw error => Throw error
      | Normal middlewares => Normal ((VFunction <$> instances) ++ middlewares)
      end
  end.

(** The last argument of [routeInstance]:
    [(ctx, next) =>
       route.handler && this.createHandler(route.handler, ctx, next)]. *)
Definition addRoutes_handler (this : HappyRouter) (route : Route)
  : Middleware :=
  λ ctx next,
    let handler := get route "handler" in
    if truthy handler then createHandler this handler ctx next
    else (ctx, None).

(** The arguments [routeInstance] receives after [route.url]. *)
Definition addRoutes_chain (this : HappyRouter) (route : Route)
  : Completion (list Value) :=
  match addRoutes_routeMiddlewares this route with
  | Throw error => Throw error
  | Normal routeMiddlewares =>
      Normal (routeMiddlewares ++ [VFunction (addRoutes_handler this route)])
  end.

Definition set_routerInstance (this : HappyRouter) (router : KoaRouter)
  : HappyRouter :=
  {| enableLogger := enableLogger this;
     errorHandler := errorHandler this;
     routerInstance := router;
     middlewaresKeys := middlewaresKeys this;
     middlewaresStack := middlewaresStack this |}.

(** The body of [routesList.forEach]. *)
Definition addRoutes_route (this : HappyRouter) (route : Route)
  : Completion HappyRouter :=
  match addRoutes_routeMethod route with
  | Throw error => Throw error
  | Normal routeMethod =>
      match addRoutes_chain this route with
      | Throw error => Throw error
      | Normal chain =>
          match KoaRouter_verb routeMethod (get route "url" :: chain)
                               (routerInstance this) with
          | Throw error => Throw error
          | Normal router => Normal (set_routerInstance this router)
          end
      end
  end.

(** [public addRoutes(routesList)]: the router it leaves, and the error
    if a route made it throw (the routes before that one stay
    registered). *)
Fixpoint addRoutes (routesList : list Route) (this : HappyRouter)
  : HappyRouter * option Error :=
  match routesList with
  | [] => (this, None)
  | route :: routesList' =>
      match addRoutes_route this route with
      | Throw error => (this, Some error)
      | Normal this' => addRoutes routesList' this'
      end
  end.

(** [public sortMiddlewares(keys: string[] = [])]. *)
Definition sortMiddlewares (keys : option (list string)) (this : HappyRouter)
  : HappyRouter :=
  {| enableLogger := enableLogger this;
     errorHandler := errorHandler this;
     routerInstance := routerInstance this;
     middlewaresKeys := foldl Set_add (middlewaresKeys this) (default [] keys);
     middlewaresStack := middlewaresStack this |}.

(** [public registerMiddlewares(middlewares)]. *)
Definition registerMiddlewares (middlewares : list (string * Middlewares))
    (this : HappyRouter) : HappyRouter :=
  {| enableLogger := enableLogger this;
     errorHandler := errorHandler this;
     routerInstance := routerInstance this;
     middlewaresKeys := middlewaresKeys this;
     middlewaresStack :=
       foldl (λ stack key,
                match own_property middlewares key with
                | Some middleware => <[key := middleware]> stack
                | None => stack
                end)
             (middlewaresStack this) (Object_keys middlewares) |}.

(** [public use(...middleware)]. *)
Definition use (middleware : list Middleware) (this : HappyRouter)
  : HappyRouter :=
  set_routerInstance this
    (KoaRouter_call (Use middleware) (routerInstance this)).

(** A method call of the setup phase, and a router after a sequence of
    them. *)
Inductive Setup : Type :=
| call_addRoutes (routesList : list Route)
| call_sortMiddlewares (keys : option (list string))
| call_registerMiddlewares (middlewares : list (string * Middlewares))
| call_use (middleware : list Middleware).

Definition setup (this : HappyRouter) (c : Setup) : HappyRouter :=
  match c with
  | call_addRoutes routesList => (addRoutes routesList this).1
  | call_sortMiddlewares keys => sortMiddlewares keys this
  | call_registerMiddlewares middlewares => registerMiddlewares middlewares this
  | call_use middleware => use middleware this
  end.

(** ** Specification functions *)

(** The members of [l], each at its first occurrence. *)
Fixpoint first_occurrences (l : list string) : list string :=
  match l with
  | [] => []
  | x :: l' => x :: filter (λ y, y ≠ x) (first_occurrences l')
  end.

(** The field names of a route that are not reserved: the set [S]. *)
Definition argument_fields (route : Route) : list string :=
  filter (λ key, key ∉ INITIAL_ROUTE_FIELDS) (Object_keys route).

(** [m] is the middleware registered as [key], made from [route[key]]. *)
Definition resolved_from (this : HappyRouter) (route : Route)
    (key : string) (m : Middleware) : Prop :=
  ∃ middlewareInstance : Middlewares,
    middlewaresStack this !! key = Some middlewareInstance
    ∧ m = middlewareInstance (get route key).

(** The layer [addRoutes] has the external router make for a route, or
    what it throws instead. *)
Definition addRoutes_layer (this : HappyRouter) (route : Route)
  : Completion Layer :=
  match addRoutes_routeMethod route with
  | Throw error => Throw error
  | Normal routeMethod =>
      match addRoutes_chain this route with
      | Throw error => Throw error
      | Normal chain =>
          KoaRouter_layer routeMethod (get route "url" :: chain)
      end
  end.

(** [c] is the call [addRoutes] makes on the external router for [route]. *)
Definition layer_of (this : HappyRouter) (route : Route) (c : RouterCall)
  : Prop :=
  ∃ layer, addRoutes_layer this route = Normal layer ∧ c = Verb layer.

(** The router after the registration of the chain [stack] for [route],
    with [routeMethod]. *)
Definition with_layer (this : HappyRouter) (route : Route)
    (routeMethod : string) (stack : list Middleware) : HappyRouter :=
  set_routerInstance this
    (KoaRouter_call
       (Verb {| layer_method := routeMethod;
                layer_name := VNull;
                layer_path := get route "url";
                layer_stack := stack |})
       (routerInstance this)).

(** Two routers with the same registry, declared order and error
    handler. *)
Definition same_setup (r1 r2 : HappyRouter) : Prop :=
  middlewaresStack r1 = middlewaresStack r2
  ∧ middlewaresKeys r1 = middlewaresKeys r2
  ∧ errorHandler r1 = errorHandler r2.

(** The options and calls of the external router after [calls] more. *)
Definition registered (calls : list RouterCall) (before after : KoaRouter)
  : Prop :=
  router_prefix after = router_prefix before
  ∧ router_strict after = router_strict before
  ∧ router_methods after = router_methods before
  ∧ router_calls after = router_calls before ++ calls.

Definition is_Verb (c : RouterCall) : Prop :=
  match c with Verb _ => True | Use _ => False end.

(** What C6 says of a route without handler: the chain stops after the
    middlewares of the route. *)
Definition ends_without_terminal_step (this : HappyRouter) (route : Route)
  : Prop :=
  ∃ instances middlewares,
    route_middlewares route = Normal middlewares
    ∧ addRoutes_chain this route
      = Normal ((VFunction <$> instances) ++ middlewares)
    ∧ Forall2 (resolved_from this route)
              (addRoutes_middlewaresKeys this route) instances.

(** The [method] of the route is one [addRoutes] can resolve: falsy (then
    [INITIAL_METHOD] is used) or the name of a member of
    [REQUEST_METHODS]. *)
Definition method_known (route : Route) : bool :=
  let method := get route "method" in
  if truthy method
  then match method with
       | VString name => bool_decide (name ∈ Object_keys REQUEST_METHODS)
       | _ => false
       end
  else true.

End HappyRouter.

Arguments Error : clear implicits.
Arguments Outcome : clear implicits.
Arguments Next : clear implicits.
Arguments Middleware : clear implicits.
Arguments RouteHandler : clear implicits.
Arguments ErrorHandler : clear implicits.
Arguments Value : clear implicits.
Arguments Middlewares : clear implicits.
Arguments Route : clear implicits.
Arguments Layer : clear implicits.
Arguments RouterCall : clear implicits.
Arguments KoaRouter : clear implicits.
Arguments RouterOptions : clear implicits.
Arguments HappyRouter : clear implicits.
Arguments Setup : clear implicits.

(** ** lib/logger.ts: the helpers of the timestamp *)

(** [s.repeat(count)]. *)
Fixpoint String_repeat (s : string) (count : nat) : string :=
  match count with
  | O => ""
  | S count' => s +:+ String_repeat s count'
  end.

Fixpoint String_drop (n : nat) (s : string) : string :=
  match n, s with
  | O, _ => s
  | S n', String _ s' => String_drop n' s'
  | S _, EmptyString => ""
  end.

(** [s.slice(start)]: from [start] to the end, a negative [start] counting
    from the end; out of range it is clamped. *)
Definition String_slice (start : Z) (s : string) : string :=
  let len := Z.of_nat (String.length s) in
  let from := if (start <? 0)%Z then Z.max (len + start) 0
              else Z.min start len in
  String_drop (Z.to_nat from) s.

(** Up to [Number.MAX_SAFE_INTEGER] every natural number is a double, and
    a template literal writes it with all its decimal digits. *)
Definition MAX_SAFE_INTEGER : N := 9007199254740991.

(** What a template literal writes for a larger number: the shortest
    digits that read back as the same double, in exponent form from
    [1e21].  This text is the runtime's: nothing is assumed of it. *)
Class NumberText : Type := number_text : N → string.

(** [`${num}`], for [num] a natural number. *)
Definition Number_toString `{NumberText} (num : N) : string :=
  if (num <=? MAX_SAFE_INTEGER)%N then pretty num else number_text num.

(** [addZeroBeforeNumber(num, count = 2)], for [num] a natural number
    (every number a [Date] getter returns is one). *)
Definition addZeroBeforeNumber `{NumberText} (num : N) (count : option nat)
  : string :=
  let count := default 2%nat count in
  let repeatZero := String_repeat "0" count in
  String_slice (-1 * Z.of_nat count) (repeatZero +:+ Number_toString num).

(** What [formatTimestamp] reads of [new Date(timestamp)]; the calendar
    and the time zone are the runtime's.  The year of a [Date] is within
    275760 of zero, where a template literal writes it in decimal. *)
Record Date : Type := {
  getFullYear : Z;
  getMonth : N;
  getDate : N;
  getHours : N;
  getMinutes : N;
  getSeconds : N;
  getMilliseconds : N;
}.

(** [formatTimestamp(timestamp)], from [dateInstance]. *)
Definition formatTimestamp `{NumberText} (dateInstance : Date) : string :=
  let year := getFullYear dateInstance in
  let month := addZeroBeforeNumber (getMonth dateInstance + 1) None in
  let date := addZeroBeforeNumber (getDate dateInstance) None in
  let hours := addZeroBeforeNumber (getHours dateInstance) None in
  let minutes := addZeroBeforeNumber (getMinutes dateInstance) None in
  let seconds := addZeroBeforeNumber (getSeconds dateInstance) None in
  let milliseconds :=
    addZeroBeforeNumber (getMilliseconds dateInstance) (Some 3%nat) in
  pretty year +:+ "-" +:+ month +:+ "-" +:+ date +:+ " " +:+ hours +:+ ":"
    +:+ minutes +:+ ":" +:+ seconds +:+ "::" +:+ milliseconds.

(** The ranges of the fields of a [Date]. *)
Definition Date_in_range (d : Date) : Prop :=
  (getMonth d < 12 ∧ 1 ≤ getDate d ≤ 31 ∧ getHours d < 24
   ∧ getMinutes d < 60 ∧ getSeconds d < 60 ∧ getMilliseconds d < 1000)%N.

Open Scope string_scope.
Open Scope list_scope.

(** The last [count] decimal digits of [num], the most significant first,
    with zeros when [num] has fewer. *)
Fixpoint low_digits (count : nat) (num : N) : string :=
  match count with
  | O => ""
  | S count' =>
      low_digits count' (num `div` 10)
        +:+ String (pretty_N_char (num `mod` 10)) ""
  end.

(** * Scenarios

    Routers and routes of the test suite ([test/lib/index.js]), with a
    context that records what ran, as the tests do with [middlewareSort]. *)

Definition Log : Type := list string.

Abbreviation LogMiddleware := (Middleware Log string).
Abbreviation LogValue := (Value Log string).
Abbreviation LogRoute := (Route Log string).
Abbreviation LogRouter := (HappyRouter Log string).

(** [async (_ctx, next) => { middlewareSort.push(text); await next(); }]. *)
Definition push (text : string) : LogMiddleware :=
  λ ctx next, next (ctx ++ [text]).

(** [(text) => async (_ctx, next) => ...], pushing what it is given. *)
Definition pushing : Middlewares Log string :=
  λ options,
    match options with
    | VString text => push text
    | VUndefined => push "undefined"
    | VNull => push "null"
    | VBool true => push "true"
    | VBool false => push "false"
    | _ => push "options"
    end.

Definition logger : LogMiddleware := push "requestLogger".

(** [ctx => { middlewareSort.push('Hello World'); ... }]. *)
Definition hello : RouteHandler Log string :=
  λ ctx _, (ctx ++ ["Hello World"], None).

(** [ctx => { ctx.body = JSON.parse(''); }]: it throws. *)
Definition failing : RouteHandler Log string :=
  λ ctx _, (ctx ++ ["handler"], Some (Thrown "Unexpected end of JSON input")).

(** [(error, ctx) => { ctx.body = { status: -1, message: error.message }; }]. *)
Definition report : ErrorHandler Log string :=
  λ error ctx,
    match error with
    | Thrown message | TypeError message | RouterError message =>
        (ctx ++ ["errorHandler: " +:+ message], None)
    end.

Definition three_middlewares : list (string * Middlewares Log string) :=
  [ ("firstMiddlewares", pushing); ("secondMiddlewares", pushing);
    ("thirdMiddlewares", pushing) ].

(** Test "Only load used middlewares": no order declared. *)
Definition router_unsorted : LogRouter :=
  registerMiddlewares three_middlewares (new_HappyRouter logger None).

(** Test "Order of global middlewares". *)
Definition router_sorted : LogRouter :=
  sortMiddlewares
    (Some ["thirdMiddlewares"; "firstMiddlewares"; "secondMiddlewares"])
    router_unsorted.

(** Test "Order of middlewares in global and route". *)
Definition route_full : LogRoute :=
  [ ("url", VString "/"); ("method", VString "GET");
    ("firstMiddlewares", VString "firstMiddlewares");
    ("secondMiddlewares", VString "secondMiddlewares");
    ("thirdMiddlewares", VString "thirdMiddlewares");
    ("middlewares",
     VArray [push "firstMiddlewaresInRoute"; push "secondMiddlewaresInRoute"]);
    ("handler", VFunction hello) ].

(** A route that uses two of the three, the second with [undefined]. *)
Definition route_two : LogRoute :=
  [ ("url", VString "/two");
    ("secondMiddlewares", VUndefined);
    ("firstMiddlewares", VString "firstMiddlewares");
    ("handler", VFunction hello) ].


(** A route with a path and nothing else. *)
Definition route_bare : LogRoute := [ ("url", VString "/bare") ].

(** How the external router runs a chain ([koa-compose]): each middleware
    receives the rest of the chain as [next], the last one what follows the
    router. *)
Fixpoint compose {Ctx Err : Type} (chain : list (Middleware Ctx Err))
    (ctx : Ctx) (next : Next Ctx Err) : Outcome Ctx Err :=
  match chain with
  | [] => next ctx
  | middleware :: chain' => middleware ctx (λ ctx', compose chain' ctx' next)
  end.

Definition downstream : Next Log string :=
  λ ctx, (ctx ++ ["downstream"], None).

Definition request (this : LogRouter) (route : LogRoute)
  : option (Outcome Log string) :=
  match addRoutes_layer this route with
  | Normal layer => Some (compose (layer_stack layer) [] downstream)
  | Throw _ => None
  end.

(** Test "Add errorHandler in constructor". *)
Definition options_report : RouterOptions Log string :=
  {| opt_prefix := Some "/api"; opt_env := None; opt_strict := None;
     opt_logger := Some true; opt_methods := None;
     opt_errorHandler := Some report |}.

Definition route_failing : LogRoute :=
  [ ("url", VString "/"); ("method", VString "GET");
    ("handler", VFunction failing) ].

Definition setup_failing : list (Setup Log string) :=
  [ call_registerMiddlewares three_middlewares;
    call_sortMiddlewares (Some ["firstMiddlewares"]);
    call_addRoutes [route_failing] ].

(** Test "Multiple constructor": a second router, with another prefix and
    no logger, set up like [router_sorted]. *)
Definition options_two : RouterOptions Log string :=
  {| opt_prefix := Some "/two"; opt_env := None; opt_strict := Some true;
     opt_logger := None; opt_methods := None; opt_errorHandler := None |}.

(** A router with middlewares registered, and declared, under reserved
    names. *)
Definition router_reserved : LogRouter :=
  sortMiddlewares (Some ["handler"; "url"])
    (registerMiddlewares [("handler", pushing); ("url", pushing)]
       (new_HappyRouter logger None)).

Definition router_sorted_two : LogRouter :=
  sortMiddlewares
    (Some ["thirdMiddlewares"; "firstMiddlewares"; "secondMiddlewares"])
    (registerMiddlewares three_middlewares
       (new_HappyRouter logger (Some options_two))).

(** [route_two] with its two middleware fields in the other order. *)
Definition route_two_swapped : LogRoute :=
  [ ("url", VString "/two");
    ("firstMiddlewares", VString "firstMiddlewares");
    ("secondMiddlewares", VUndefined);
    ("handler", VFunction hello) ].

(** The date of the example in [lib/index.ts]:
    [2020-01-01 00:00:00::001]. *)
Definition date_example : Date :=
  {| getFullYear := 2020; getMonth := 0; getDate := 1; getHours := 0;
     getMinutes := 0; getSeconds := 0; getMilliseconds := 1 |}.

(** An error handler that fails in its turn, with the error it was
    given: [(error) => { throw error; }]. *)
Definition rethrow : ErrorHandler Log string := λ error ctx, (ctx, Some error).

Definition options_rethrow : RouterOptions Log string :=
  {| opt_prefix := None; opt_env := None; opt_strict := None;
     opt_logger := None; opt_methods := None;
     opt_errorHandler := Some rethrow |}.


(** A route with a method that is not a member of [REQUEST_METHODS]. *)
Definition route_head : LogRoute :=
  [ ("url", VString "/head"); ("method", VString "HEAD");
    ("handler", VFunction hello) ].

(** A route whose [middlewares] field holds a number. *)
Definition route_number : LogRoute :=
  [ ("url", VString "/five"); ("middlewares", VNumber 5);
    ("handler", VFunction hello) ].

(** The scenarios only write numbers up to [MAX_SAFE_INTEGER]: the text of
    the others is never asked for. *)
Definition text_unused : NumberText := λ _, "".

(** * Properties *)

Section Properties.

Context {Ctx Err : Type} (requestLogger : Middleware Ctx Err).

(** ** Route compilation: the keys *)


Lemma includes_spec (l : list string) (key : string) :
  includes l key = true ↔ key ∈ l.
Proof. unfold includes. apply bool_decide_eq_true. Qed.

(** The test of the filter that computes [routeMiddlewaresKeys]. *)
Lemma routeMiddlewaresKeys_test (this : HappyRouter Ctx Err) (key : string) :
  Is_true (negb (includes INITIAL_ROUTE_FIELDS key)
           && bool_decide (is_Some (middlewaresStack this !! key)))
  ↔ (key ∉ INITIAL_ROUTE_FIELDS) ∧ is_Some (middlewaresStack this !! key).
Proof.
  rewrite Is_true_true, andb_true_iff, negb_true_iff, bool_decide_eq_true.
  unfold includes. by rewrite bool_decide_eq_false.
Qed.

Lemma elem_of_routeMiddlewaresKeys (this : HappyRouter Ctx Err)
    (route : Route Ctx Err)
    (key : string) :
  key ∈ addRoutes_routeMiddlewaresKeys this route ↔
  key ∈ Object_keys route ∧ (key ∉ INITIAL_ROUTE_FIELDS)
  ∧ is_Some (middlewaresStack this !! key).
Proof.
  unfold addRoutes_routeMiddlewaresKeys.
  rewrite list_elem_of_filter, routeMiddlewaresKeys_test. tauto.
Qed.

(** The ordering declaration only selects among the keys of the route. *)
Lemma middlewaresKeys_subseteq (this : HappyRouter Ctx Err)
    (route : Route Ctx Err)
    (key : string) :
  key ∈ addRoutes_middlewaresKeys this route →
  key ∈ addRoutes_routeMiddlewaresKeys this route.
Proof.
  unfold addRoutes_middlewaresKeys.
  destruct (0 <? length (middlewaresKeys this))%nat; [|done].
  rewrite list_elem_of_filter, Is_true_true, includes_spec. tauto.
Qed.

Lemma middlewaresKeys_registered (this : HappyRouter Ctx Err)
    (route : Route Ctx Err) :
  Forall (λ key, is_Some (middlewaresStack this !! key))
         (addRoutes_middlewaresKeys this route).
Proof.
  apply Forall_forall. intros key Hkey.
  apply middlewaresKeys_subseteq, elem_of_routeMiddlewaresKeys in Hkey.
  tauto.
Qed.

(** The test [this.middlewaresKeys.size > 0]. *)
Lemma size_test (l : list string) :
  (0 <? length l)%nat = if decide (l = []) then false else true.
Proof. destruct l; done. Qed.

(** When every argument field of the route is registered, the filter of
    [routeMiddlewaresKeys] keeps exactly the argument fields. *)
Lemma routeMiddlewaresKeys_all_registered (this : HappyRouter Ctx Err)
    (route : Route Ctx Err) :
  Forall (λ key, is_Some (middlewaresStack this !! key))
         (argument_fields route) →
  addRoutes_routeMiddlewaresKeys this route = argument_fields route.
Proof.
  unfold addRoutes_routeMiddlewaresKeys, argument_fields.
  induction (Object_keys route) as [|key keys IH]; [done|].
  destruct (decide (key ∉ INITIAL_ROUTE_FIELDS)) as [Hkey|Hkey].
  - rewrite (filter_cons_True (.∉ INITIAL_ROUTE_FIELDS)) by done.
    rewrite Forall_cons. intros [Hreg Hall].
    rewrite filter_cons_True by by apply routeMiddlewaresKeys_test.
    by rewrite IH.
  - rewrite (filter_cons_False (.∉ INITIAL_ROUTE_FIELDS)) by done.
    rewrite filter_cons_False; [done|].
    rewrite routeMiddlewaresKeys_test. tauto.
Qed.

(** ** Route compilation: the chain *)

Lemma Array_map_instances (this : HappyRouter Ctx Err) (route : Route Ctx Err)
    (keys : list string) :
  Forall (λ key, is_Some (middlewaresStack this !! key)) keys →
  ∃ instances,
    Array_map (addRoutes_instance this route) keys = Normal instances
    ∧ Forall2 (resolved_from this route) keys instances.
Proof.
  induction 1 as [|key keys [f Hf] _ (instances & Hmap & Hall)].
  - exists []. by split; [|constructor].
  - exists (f (get route key) :: instances). split.
    + cbn [Array_map]. rewrite Hmap. unfold addRoutes_instance.
      by rewrite Hf.
    + constructor; [by exists f|done].
Qed.

(** [addRoutes] never calls an unregistered name; building the chain
    throws only if the spread of [route.middlewares] does, and the chain
    is the instances of the selected keys, then what the spread gives,
    then the step that runs the handler. *)
Lemma addRoutes_chain_shape (this : HappyRouter Ctx Err)
    (route : Route Ctx Err) :
  ∃ instances,
    addRoutes_chain this route
    = match route_middlewares route with
      | Throw error => Throw error
      | Normal middlewares =>
          Normal ((VFunction <$> instances) ++ middlewares
                    ++ [VFunction (addRoutes_handler this route)])
      end
    ∧ Forall2 (resolved_from this route)
              (addRoutes_middlewaresKeys this route) instances.
Proof.
  destruct (Array_map_instances this route _
              (middlewaresKeys_registered this route))
    as (instances & Hmap & Hall).
  exists instances. split; [|done].
  unfold addRoutes_chain, addRoutes_routeMiddlewares. rewrite Hmap.
  destruct (route_middlewares route); [|done]. by rewrite <-(assoc_L (++)).
Qed.

Lemma functions_fmap (stack : list (Middleware Ctx Err)) :
  functions (VFunction <$> stack) = Some stack.
Proof.
  induction stack as [|f stack IH]; [done|].
  rewrite fmap_cons. cbn [functions]. by rewrite IH.
Qed.

(** Called with a path and functions, a verb method registers them under
    that path, without a name. *)
Lemma KoaRouter_layer_functions (routeMethod : string) (path : Value Ctx Err)
    (stack : list (Middleware Ctx Err)) :
  KoaRouter_layer routeMethod (path :: (VFunction <$> stack))
  = Normal {| layer_method := routeMethod; layer_name := VNull;
              layer_path := path; layer_stack := stack |}.
Proof.
  unfold KoaRouter_layer. destruct stack as [|f stack]; [done|].
  rewrite fmap_cons. cbn iota. rewrite <-fmap_cons.
  by rewrite functions_fmap.
Qed.

(** ** addRoutes on a list of routes *)

(** One route: one layer is registered, or the route makes [addRoutes]
    throw and nothing is. *)
Lemma addRoutes_route_spec (this : HappyRouter Ctx Err)
    (route : Route Ctx Err) :
  addRoutes_route this route
  = match addRoutes_layer this route with
    | Throw error => Throw error
    | Normal layer =>
        Normal (set_routerInstance this
                  (KoaRouter_call (Verb layer) (routerInstance this)))
    end.
Proof.
  unfold addRoutes_route, addRoutes_layer, KoaRouter_verb.
  destruct (addRoutes_routeMethod route) as [routeMethod|]; [|done].
  destruct (addRoutes_chain this route) as [chain|]; [|done].
  by destruct (KoaRouter_layer routeMethod (get route "url" :: chain)).
Qed.

(** A route whose method is known and whose [middlewares] are absent or
    an array of functions is registered, under its [url], with the chain
    of the instances, these middlewares and the step of the handler. *)
Lemma addRoutes_layer_functions (this : HappyRouter Ctx Err)
    (route : Route Ctx Err) (routeMethod : string)
    (ms : list (Middleware Ctx Err)) :
  addRoutes_routeMethod route = Normal routeMethod →
  route_middlewares route = Normal (VFunction <$> ms) →
  ∃ instances,
    Forall2 (resolved_from this route)
            (addRoutes_middlewaresKeys this route) instances
    ∧ addRoutes_layer this route
      = Normal {| layer_method := routeMethod; layer_name := VNull;
                  layer_path := get route "url";
                  layer_stack := instances ++ ms
                                   ++ [addRoutes_handler this route] |}
    ∧ addRoutes [route] this
      = (with_layer this route routeMethod
           (instances ++ ms ++ [addRoutes_handler this route]), None).
Proof.
  intros Hmethod Hms.
  destruct (addRoutes_chain_shape this route) as (instances & Hchain & Hall).
  rewrite Hms in Hchain. exists instances. split; [done|].
  assert (addRoutes_layer this route
          = Normal {| layer_method := routeMethod; layer_name := VNull;
                      layer_path := get route "url";
                      layer_stack := instances ++ ms
                                       ++ [addRoutes_handler this route] |})
    as Hlayer.
  { unfold addRoutes_layer. rewrite Hmethod, Hchain.
    rewrite <-(KoaRouter_layer_functions routeMethod (get route "url")).
    by rewrite !fmap_app. }
  split; [done|]. simpl. by rewrite addRoutes_route_spec, Hlayer.
Qed.

Lemma route_middlewares_array (route : Route Ctx Err)
    (ms : list (Middleware Ctx Err)) :
  get route "middlewares" = VArray ms →
  route_middlewares route = Normal (VFunction <$> ms).
Proof. intros Hms. unfold route_middlewares. by rewrite Hms. Qed.

Lemma addRoutes_layer_same_setup (r1 r2 : HappyRouter Ctx Err)
    (route : Route Ctx Err) :
  same_setup r1 r2 → addRoutes_layer r1 route = addRoutes_layer r2 route.
Proof.
  intros (Hstack & Hkeys & Herror).
  unfold addRoutes_layer, addRoutes_chain, addRoutes_routeMiddlewares,
    addRoutes_handler, createHandler, addRoutes_middlewaresKeys,
    addRoutes_routeMiddlewaresKeys, addRoutes_instance.
  by rewrite Hstack, Hkeys, Herror.
Qed.

(** A route with the declared shape has a method the router knows. *)
Lemma addRoutes_routeMethod_typed (route : Route Ctx Err) :
  Route_typed route →
  ∃ routeMethod, addRoutes_routeMethod route = Normal routeMethod.
Proof.
  intros (_ & Hmethod & _). unfold addRoutes_routeMethod.
  destruct Hmethod as [->|(name & -> & Hname)]; [by eexists|].
  unfold Object_keys in Hname. simpl in Hname.
  repeat (apply elem_of_cons in Hname as [->|Hname]; [by eexists|]).
  by apply elem_of_nil in Hname.
Qed.

(** [addRoutes] changes nothing but the external router, on which it
    only calls verb methods, at most one per route. *)
Lemma addRoutes_spec (routesList : list (Route Ctx Err))
    (this : HappyRouter Ctx Err) :
  ∃ calls,
    registered calls (routerInstance this)
               (routerInstance (addRoutes routesList this).1)
    ∧ Forall is_Verb calls
    ∧ (length calls ≤ length routesList)%nat
    ∧ enableLogger (addRoutes routesList this).1 = enableLogger this
    ∧ errorHandler (addRoutes routesList this).1 = errorHandler this
    ∧ middlewaresKeys (addRoutes routesList this).1 = middlewaresKeys this
    ∧ middlewaresStack (addRoutes routesList this).1 = middlewaresStack this.
Proof.
  revert this. induction routesList as [|route routesList IH]; intros this.
  { exists []. unfold registered. simpl. by rewrite app_nil_r. }
  simpl. rewrite addRoutes_route_spec.
  destruct (addRoutes_layer this route) as [layer|error].
  - destruct (IH (set_routerInstance this
                    (KoaRouter_call (Verb layer) (routerInstance this))))
      as (calls & (Hp & Hs & Hm & Hc) & Hverb & Hlen & Hl & He & Hk & Hst).
    exists (Verb layer :: calls). unfold registered.
    rewrite Hp, Hs, Hm, Hc, Hl, He, Hk, Hst. simpl.
    rewrite <-(assoc_L (++)). repeat split; [by constructor|lia].
  - exists []. unfold registered. simpl. rewrite app_nil_r.
    repeat split; [done|lia].
Qed.

(** On routes of the declared shape [addRoutes] returns, with one layer
    per route. *)
Lemma addRoutes_typed (routesList : list (Route Ctx Err))
    (this : HappyRouter Ctx Err) :
  Forall Route_typed routesList →
  (addRoutes routesList this).2 = None
  ∧ length (router_calls (routerInstance (addRoutes routesList this).1))
    = (length (router_calls (routerInstance this)) + length routesList)%nat.
Proof.
  intros Htyped. revert this.
  induction Htyped as [|route routesList Hroute _ IH]; intros this.
  { simpl. split; [done|lia]. }
  destruct (addRoutes_routeMethod_typed route Hroute) as [routeMethod Hmethod].
  assert (∃ ms, route_middlewares route = Normal (VFunction <$> ms))
    as [ms Hms].
  { destruct Hroute as (_ & _ & _ & [Hnone|[ms Hms]]).
    - exists []. unfold route_middlewares. by rewrite Hnone.
    - exists ms. by apply route_middlewares_array. }
  destruct (addRoutes_layer_functions this route routeMethod ms Hmethod Hms)
    as (instances & _ & Hlayer & _).
  simpl. rewrite addRoutes_route_spec, Hlayer. cbn iota.
  destruct (IH (set_routerInstance this
                  (KoaRouter_call
                     (Verb {| layer_method := routeMethod;
                              layer_name := VNull;
                              layer_path := get route "url";
                              layer_stack :=
                                instances ++ ms
                                  ++ [addRoutes_handler this route] |})
                     (routerInstance this)))) as [IH1 IH2].
  split; [exact IH1|]. etrans; [exact IH2|].
  simpl. rewrite length_app. simpl. lia.
Qed.

(** What [addRoutes] registers: for the routes it gets through (all of
    them when it returns), in their order, one layer each, the layer
    [addRoutes_layer] of the route. *)
Lemma addRoutes_layers (routesList : list (Route Ctx Err))
    (this : HappyRouter Ctx Err) :
  ∃ compiled calls,
    compiled `prefix_of` routesList
    ∧ Forall2 (layer_of this) compiled calls
    ∧ router_calls (routerInstance (addRoutes routesList this).1)
      = router_calls (routerInstance this) ++ calls
    ∧ ((addRoutes routesList this).2 = None → compiled = routesList).
Proof.
  revert this. induction routesList as [|route routesList IH]; intros this.
  { exists [], []. simpl. rewrite app_nil_r. by repeat split; [|constructor]. }
  simpl. rewrite addRoutes_route_spec.
  destruct (addRoutes_layer this route) as [layer|error] eqn:Hlayer.
  - destruct (IH (set_routerInstance this
                    (KoaRouter_call (Verb layer) (routerInstance this))))
      as (compiled & calls & Hprefix & Hlayers & Hcalls & Hall).
    exists (route :: compiled), (Verb layer :: calls). repeat split.
    + by apply prefix_cons.
    + constructor; [by exists layer|].
      eapply Forall2_impl; [exact Hlayers|].
      intros route' c' (layer' & Hlayer' & ?). by exists layer'.
    + rewrite Hcalls. simpl. by rewrite <-(assoc_L (++)).
    + intros Hreturns. by rewrite Hall.
  - exists [], []. simpl. rewrite app_nil_r.
    repeat split; [apply prefix_nil|constructor|done].
Qed.

(** ** The claims about the chain of one route *)

(** C1.  Whatever was registered ([middlewaresStack]) and whatever order
    was declared ([middlewaresKeys]): for a route whose argument fields
    (its field names other than the four reserved ones) are all
    registered, and that [addRoutes] can compile (its [url] is a string,
    its method is known, its [middlewares] are absent or an array),
    [addRoutes] returns and registers one layer, whose chain begins with
    the registered middlewares of these fields, each made from the value
    of its field, in this order: the declared order restricted to the
    argument fields when an order was declared (declared keys the route
    does not use and used keys that were not declared are both left out),
    the enumeration order of the fields when none was. *)
Theorem addRoutes_registry_order (this : HappyRouter Ctx Err)
    (route : Route Ctx Err) (url routeMethod : string)
    (ms : list (Middleware Ctx Err)) :
  Forall (λ key, is_Some (middlewaresStack this !! key))
         (argument_fields route) →
  get route "url" = VString url →
  addRoutes_routeMethod route = Normal routeMethod →
  route_middlewares route = Normal (VFunction <$> ms) →
  ∃ instances,
    Forall2 (resolved_from this route)
        (if decide (middlewaresKeys this = []) then argument_fields route
         else filter (.∈ argument_fields route) (middlewaresKeys this))
        instances
    ∧ addRoutes [route] this
      = (with_layer this route routeMethod
           (instances ++ ms ++ [addRoutes_handler this route]), None).
Proof.
  intros Hreg _ Hmethod Hms.
  destruct (addRoutes_layer_functions this route routeMethod ms Hmethod Hms)
    as (instances & Hall & _ & Hadd).
  exists instances. split; [|done].
  unfold addRoutes_middlewaresKeys in Hall.
  rewrite size_test, routeMiddlewaresKeys_all_registered in Hall by done.
  destruct (decide (middlewaresKeys this = [])); [done|].
  erewrite list_filter_iff; [exact Hall|].
  intros key. simpl. by rewrite Is_true_true, includes_spec.
Qed.

(** C2.  For a route [addRoutes] can compile (its [url] is a string, its
    method is known), the middlewares listed in its [middlewares] field
    are in the chain of the layer [addRoutes] registers, as they are and
    in their order: with [n] the number of selected keys, the first [n]
    steps of the chain are the registered middlewares, the following ones
    are the middlewares of the route, and what remains is the last step,
    the one that runs the handler.  This holds for every router, so
    whatever order was declared. *)
Theorem addRoutes_route_middlewares_position (this : HappyRouter Ctx Err)
    (route : Route Ctx Err) (url routeMethod : string)
    (ms : list (Middleware Ctx Err)) :
  get route "middlewares" = VArray ms →
  get route "url" = VString url →
  addRoutes_routeMethod route = Normal routeMethod →
  ∃ chain,
    addRoutes [route] this = (with_layer this route routeMethod chain, None)
    ∧ Forall2 (resolved_from this route)
        (addRoutes_middlewaresKeys this route)
        (take (length (addRoutes_middlewaresKeys this route)) chain)
    ∧ take (length ms)
           (drop (length (addRoutes_middlewaresKeys this route)) chain)
      = ms
    ∧ drop (length (addRoutes_middlewaresKeys this route) + length ms) chain
      = [addRoutes_handler this route].
Proof.
  intros Hms _ Hmethod. apply route_middlewares_array in Hms.
  destruct (addRoutes_layer_functions this route routeMethod ms Hmethod Hms)
    as (instances & Hall & _ & Hadd).
  eexists. split; [exact Hadd|].
  rewrite (Forall2_length _ _ _ Hall). repeat split.
  - by rewrite take_app_length.
  - by rewrite drop_app_length, take_app_length.
  - by rewrite <-drop_drop, drop_app_length, drop_app_length.
Qed.

(** C5.  The keys [addRoutes] makes middlewares from never include [url],
    [method], [middlewares] or [handler], whatever the route holds and
    whatever is registered or declared under these names; the registered
    part of the chain is made from these keys and nothing else (the chain
    is built unless spreading [route.middlewares] throws). *)
Theorem addRoutes_reserved_fields (this : HappyRouter Ctx Err)
    (route : Route Ctx Err) :
  ∃ instances,
    addRoutes_chain this route
    = match route_middlewares route with
      | Throw error => Throw error
      | Normal middlewares =>
          Normal ((VFunction <$> instances) ++ middlewares
                    ++ [VFunction (addRoutes_handler this route)])
      end
    ∧ Forall2 (resolved_from this route)
              (addRoutes_middlewaresKeys this route) instances
    ∧ Forall (λ key, key ∉ addRoutes_middlewaresKeys this route)
             INITIAL_ROUTE_FIELDS.
Proof.
  destruct (addRoutes_chain_shape this route) as (instances & Hchain & Hall).
  exists instances. repeat split; [done|done|].
  apply Forall_forall. intros key Hreserved Hkey.
  apply middlewaresKeys_subseteq, elem_of_routeMiddlewaresKeys in Hkey.
  tauto.
Qed.

(** C6, as the code has it.  The chain of every route (built unless
    spreading [route.middlewares] throws) ends with one more step; when
    the [handler] field is truthy this step runs it through
    [createHandler], and when the route has no handler the step is still
    there and does nothing: the context is unchanged, nothing is thrown
    and the continuation is not called. *)
Theorem addRoutes_terminal_step (this : HappyRouter Ctx Err)
    (route : Route Ctx Err) :
  match addRoutes_chain this route with
  | Normal chain =>
      last chain = Some (VFunction (addRoutes_handler this route))
  | Throw error => route_middlewares route = Throw error
  end
  ∧ ∀ ctx next,
      addRoutes_handler this route ctx next
      = if truthy (get route "handler")
        then createHandler this (get route "handler") ctx next
        else (ctx, None).
Proof.
  split; [|done].
  destruct (addRoutes_chain_shape this route) as (instances & -> & _).
  destruct (route_middlewares route); [|done].
  by rewrite !(assoc_L (++)), last_snoc.
Qed.

Lemma not_ends_without_terminal_step (this : HappyRouter Ctx Err)
    (route : Route Ctx Err) :
  ¬ ends_without_terminal_step this route.
Proof.
  intros (instances' & middlewares & Hms & Hchain' & Hall').
  destruct (addRoutes_chain_shape this route) as (instances & Hchain & Hall).
  rewrite Hms, Hchain' in Hchain. injection Hchain as Heq.
  apply (f_equal length) in Heq. rewrite !length_app, !length_fmap in Heq.
  apply Forall2_length in Hall, Hall'. simpl in Heq.
  unfold RouteHandler, Middleware in *. lia.
Qed.


(** C8.  Two routers with the same registry, the same declared order and
    the same error handler, given the same list of routes, make the same
    calls on their external routers (the same methods, paths and chains,
    in the same order) and finish the same way, whatever else
    distinguishes the two instances. *)
Theorem addRoutes_deterministic (r1 r2 : HappyRouter Ctx Err)
    (routesList : list (Route Ctx Err)) :
  middlewaresStack r1 = middlewaresStack r2 →
  middlewaresKeys r1 = middlewaresKeys r2 →
  errorHandler r1 = errorHandler r2 →
  ∃ calls,
    registered calls (routerInstance r1)
               (routerInstance (addRoutes routesList r1).1)
    ∧ registered calls (routerInstance r2)
                 (routerInstance (addRoutes routesList r2).1)
    ∧ (addRoutes routesList r1).2 = (addRoutes routesList r2).2.
Proof.
  intros Hstack Hkeys Herror.
  assert (same_setup r1 r2) as Hsame by done. clear Hstack Hkeys Herror.
  revert r1 r2 Hsame.
  induction routesList as [|route routesList IH]; intros r1 r2 Hsame.
  { exists []. unfold registered. simpl. by rewrite !app_nil_r. }
  simpl. rewrite !addRoutes_route_spec.
  rewrite (addRoutes_layer_same_setup r1 r2 route Hsame).
  destruct (addRoutes_layer r2 route) as [layer|error].
  - set (c := Verb layer).
    destruct (IH (set_routerInstance r1 (KoaRouter_call c (routerInstance r1)))
                 (set_routerInstance r2 (KoaRouter_call c (routerInstance r2))))
      as (calls & (Hp1 & Hs1 & Hn1 & Hcalls1)
                & (Hp2 & Hs2 & Hn2 & Hcalls2) & Hresult); [done|].
    exists (c :: calls). unfold registered.
    rewrite Hp1, Hs1, Hn1, Hcalls1, Hp2, Hs2, Hn2, Hcalls2, Hresult. simpl.
    by rewrite <-!(assoc_L (++)).
  - exists []. unfold registered. simpl. by rewrite !app_nil_r.
Qed.

(** C9.  After [addRoutes], for every router and every list of routes,
    the registry, the declared order and the error handler (and the
    logging flag) are what they were; the external router keeps its
    options and has received calls of verb methods, nothing else. *)
Theorem addRoutes_frame (this : HappyRouter Ctx Err)
    (routesList : list (Route Ctx Err)) :
  middlewaresStack (addRoutes routesList this).1 = middlewaresStack this
  ∧ middlewaresKeys (addRoutes routesList this).1 = middlewaresKeys this
  ∧ errorHandler (addRoutes routesList this).1 = errorHandler this
  ∧ enableLogger (addRoutes routesList this).1 = enableLogger this
  ∧ ∃ calls,
      registered calls (routerInstance this)
                 (routerInstance (addRoutes routesList this).1)
      ∧ Forall is_Verb calls.
Proof.
  destruct (addRoutes_spec routesList this)
    as (calls & Hreg & Hverb & _ & Hlogger & Herror & Hkeys & Hstack).
  repeat split; try done. by exists calls.
Qed.

(** ** The error boundary *)

Lemma errorHandler_setup (this : HappyRouter Ctx Err) (c : Setup Ctx Err) :
  errorHandler (setup this c) = errorHandler this.
Proof.
  destruct c as [routesList| | |]; [|done..].
  by destruct (addRoutes_spec routesList this)
    as (calls & _ & _ & _ & _ & ? & _).
Qed.

(** No method assigns [this.errorHandler]: it is what the constructor
    found in the options. *)
Lemma errorHandler_invariant (options : option (RouterOptions Ctx Err))
    (calls : list (Setup Ctx Err)) :
  errorHandler (foldl setup (new_HappyRouter requestLogger options) calls)
  = options ≫= opt_errorHandler.
Proof.
  induction calls as [|c calls IH] using rev_ind; [done|].
  by rewrite foldl_app; simpl; rewrite errorHandler_setup.
Qed.

(** C3.  On a router built with an [errorHandler] in its options, after
    any sequence of method calls: when the handler fails with [error],
    leaving the context as [ctx'], the wrapped call is the one call of
    [errorHandler] on [error] and [ctx'], and nothing more; so it
    completes as that call does, and when the error handler returns no
    error leaves the wrapped call. *)
Theorem createHandler_errorHandler (options : RouterOptions Ctx Err)
    (handleError : ErrorHandler Ctx Err) (calls : list (Setup Ctx Err))
    (handler : Value Ctx Err) (ctx ctx' : Ctx) (next : Next Ctx Err)
    (error : Error Err) :
  opt_errorHandler options = Some handleError →
  call handler ctx next = (ctx', Some error) →
  createHandler
    (foldl setup (new_HappyRouter requestLogger (Some options)) calls)
    handler ctx next
  = handleError error ctx'
  ∧ ∀ ctx'',
      handleError error ctx' = (ctx'', None) →
      createHandler
        (foldl setup (new_HappyRouter requestLogger (Some options)) calls)
        handler ctx next
      = (ctx'', None).
Proof.
  intros Hoption Hcall.
  assert (createHandler
            (foldl setup (new_HappyRouter requestLogger (Some options)) calls)
            handler ctx next = handleError error ctx') as Heq.
  { unfold createHandler. rewrite errorHandler_invariant. simpl.
    by rewrite Hoption, Hcall. }
  split; [done|]. intros ctx'' Hreturns. by rewrite Heq.
Qed.

(** C4.  On a router built without [errorHandler], after any sequence of
    method calls: when the handler fails with [error], the wrapped call
    fails with the same [error], and leaves the context as the handler
    did. *)
Theorem createHandler_no_errorHandler
    (options : option (RouterOptions Ctx Err)) (calls : list (Setup Ctx Err))
    (handler : Value Ctx Err) (ctx ctx' : Ctx) (next : Next Ctx Err)
    (error : Error Err) :
  options ≫= opt_errorHandler = None →
  call handler ctx next = (ctx', Some error) →
  createHandler (foldl setup (new_HappyRouter requestLogger options) calls)
                handler ctx next
  = (ctx', Some error).
Proof.
  intros Hoption Hcall. unfold createHandler.
  by rewrite errorHandler_invariant, Hoption.
Qed.

(** ** The registry *)

Lemma own_property_None {V : Type} (o : list (string * V)) (key : string) :
  own_property o key = None ↔ key ∉ Object_keys o.
Proof.
  unfold Object_keys. induction o as [|[k w] o IH]; simpl.
  { split; [intros _; apply not_elem_of_nil|done]. }
  rewrite not_elem_of_cons. case_decide as Hk.
  - subst. split; [done|]. by intros [? _].
  - rewrite IH. split; [|by intros [_ ?]]. intros ?. split; [congruence|done].
Qed.

(** [registerMiddlewares] sets every name of its argument, over what was
    registered under that name, and leaves the other names as they were. *)
Lemma registerMiddlewares_lookup
    (middlewares : list (string * Middlewares Ctx Err))
    (this : HappyRouter Ctx Err) (key : string) :
  middlewaresStack (registerMiddlewares middlewares this) !! key
  = match own_property middlewares key with
    | Some middleware => Some middleware
    | None => middlewaresStack this !! key
    end.
Proof.
  simpl.
  assert (∀ keys (stack : gmap string (Middlewares Ctx Err)),
            foldl (λ stack key,
                     match own_property middlewares key with
                     | Some middleware => <[key := middleware]> stack
                     | None => stack
                     end) stack keys !! key
            = if decide (key ∈ keys)
              then match own_property middlewares key with
                   | Some middleware => Some middleware
                   | None => stack !! key
                   end
              else stack !! key) as Hfold.
  { induction keys as [|k keys IH]; intros stack; [done|]. simpl.
    rewrite IH.
    destruct (decide (k = key)) as [->|Hne].
    - rewrite (decide_True (P := key ∈ key :: keys)) by left.
      destruct (own_property middlewares key) as [f|];
        rewrite ?lookup_insert_eq; by case_decide.
    - assert (match own_property middlewares k with
              | Some middleware => <[k := middleware]> stack
              | None => stack
              end !! key = stack !! key) as ->.
      { destruct (own_property middlewares k); [|done].
        by rewrite lookup_insert_ne. }
      destruct (decide (key ∈ keys)) as [Hkey|Hkey].
      + by rewrite (decide_True (P := key ∈ k :: keys)) by by right.
      + rewrite (decide_False (P := key ∈ k :: keys)); [done|].
        rewrite elem_of_cons. by intros [->|?]. }
  rewrite Hfold. case_decide as Hkey; [done|].
  apply own_property_None in Hkey. by rewrite Hkey.
Qed.

(** ** The ordering declaration *)

Lemma first_occurrences_filter (P : string → Prop) `{!∀ x, Decision (P x)}
    (l : list string) :
  first_occurrences (filter P l) = filter P (first_occurrences l).
Proof.
  induction l as [|x l IH]; [done|]. simpl.
  destruct (decide (P x)) as [Hx|Hx].
  - rewrite !filter_cons_True by done. simpl. rewrite IH. f_equal.
    rewrite !list_filter_filter. apply list_filter_iff. tauto.
  - rewrite !filter_cons_False by done. rewrite IH.
    rewrite list_filter_filter. apply list_filter_iff.
    intros y. split; [|tauto]. intros Hy. split; [done|]. by intros ->.
Qed.

Lemma elem_of_first_occurrences (l : list string) (x : string) :
  x ∈ first_occurrences l ↔ x ∈ l.
Proof.
  induction l as [|y l IH]; [done|]. simpl.
  rewrite !elem_of_cons, list_elem_of_filter, IH.
  destruct (decide (x = y)); tauto.
Qed.

Lemma NoDup_first_occurrences (l : list string) :
  NoDup (first_occurrences l).
Proof.
  induction l as [|x l IH]; simpl; constructor.
  - rewrite list_elem_of_filter. tauto.
  - by apply NoDup_filter.
Qed.

(** A list without repetition is its own list of first occurrences. *)
Lemma first_occurrences_NoDup (l : list string) :
  NoDup l → first_occurrences l = l.
Proof.
  induction 1 as [|x l Hx _ IH]; [done|]. simpl. rewrite IH. f_equal.
  clear IH. induction l as [|y l IHl]; [done|].
  apply not_elem_of_cons in Hx as [Hne Hx].
  rewrite filter_cons_True by congruence. by rewrite IHl.
Qed.

(** [keys.forEach(key => set.add(key))]: the set, then the new keys, each
    at its first occurrence. *)
Lemma forEach_Set_add (s keys : list string) :
  foldl Set_add s keys = s ++ first_occurrences (filter (.∉ s) keys).
Proof.
  revert s. induction keys as [|key keys IH]; intros s; simpl.
  { by rewrite app_nil_r. }
  rewrite IH. unfold Set_add. destruct (decide (key ∈ s)) as [Hkey|Hkey].
  - by rewrite filter_cons_False by tauto.
  - rewrite filter_cons_True by done. simpl.
    rewrite <-(assoc_L (++)). simpl. do 2 f_equal.
    rewrite <-first_occurrences_filter, list_filter_filter. f_equal.
    apply list_filter_iff. intros x.
    rewrite not_elem_of_app, list_elem_of_singleton. tauto.
Qed.

Lemma forEach_Set_add_declared (s keys : list string) :
  Forall (.∈ s) keys → foldl Set_add s keys = s.
Proof.
  induction 1 as [|key keys Hkey _ IH]; [done|]. simpl.
  unfold Set_add at 2. by rewrite decide_True.
Qed.

Lemma elem_of_forEach_Set_add (s keys : list string) (key : string) :
  key ∈ foldl Set_add s keys ↔ key ∈ s ∨ key ∈ keys.
Proof.
  rewrite forEach_Set_add, elem_of_app, elem_of_first_occurrences,
    list_elem_of_filter.
  destruct (decide (key ∈ s)); tauto.
Qed.

(** Called without argument, [sortMiddlewares] declares nothing. *)
Lemma sortMiddlewares_default (this : HappyRouter Ctx Err) :
  sortMiddlewares None this = this.
Proof. by destruct this. Qed.

Lemma forEach_Set_add_NoDup (s keys : list string) :
  NoDup s → NoDup (foldl Set_add s keys).
Proof.
  intros Hset. rewrite forEach_Set_add. apply NoDup_app.
  repeat split; [done| |apply NoDup_first_occurrences].
  intros key Hkey. rewrite elem_of_first_occurrences, list_elem_of_filter.
  tauto.
Qed.

(** [this.middlewaresKeys] is a set at every moment of the setup. *)
Lemma middlewaresKeys_NoDup (options : option (RouterOptions Ctx Err))
    (calls : list (Setup Ctx Err)) :
  NoDup (middlewaresKeys
           (foldl setup (new_HappyRouter requestLogger options) calls)).
Proof.
  induction calls as [|c calls IH] using rev_ind; [constructor|].
  rewrite foldl_app. simpl.
  destruct c as [routesList|keys| |]; simpl; [| |done..].
  - by destruct (addRoutes_spec routesList
                   (foldl setup (new_HappyRouter requestLogger options) calls))
      as (_ & _ & _ & _ & _ & _ & -> & _).
  - by apply forEach_Set_add_NoDup.
Qed.

(** On a new router, the declared order is the argument of
    [sortMiddlewares] without its repetitions, and the registry holds the
    argument of [registerMiddlewares]. *)
Lemma new_HappyRouter_declared (options : option (RouterOptions Ctx Err))
    (middlewares : list (string * Middlewares Ctx Err)) (keys : list string) :
  let this := sortMiddlewares (Some keys)
                (registerMiddlewares middlewares
                   (new_HappyRouter requestLogger options)) in
  middlewaresKeys this = first_occurrences keys
  ∧ ∀ key, middlewaresStack this !! key = own_property middlewares key.
Proof.
  split.
  - simpl. rewrite forEach_Set_add. simpl. f_equal.
    induction keys as [|key keys IH]; [done|].
    rewrite filter_cons_True by apply not_elem_of_nil. by rewrite IH.
  - intros key.
    change (middlewaresStack
              (registerMiddlewares middlewares
                 (new_HappyRouter requestLogger options)) !! key
            = own_property middlewares key).
    rewrite registerMiddlewares_lookup.
    by destruct (own_property middlewares key).
Qed.

(** C7.  [sortMiddlewares] appends to the declared order the keys it is
    given that are not yet declared, each once, at its first occurrence
    in the argument; what was declared keeps its place.  So declaring
    keys that are all declared already changes nothing, declaring the
    same list twice is declaring it once, and the order stays free of
    repetitions. *)
Theorem sortMiddlewares_additive_idempotent (this : HappyRouter Ctx Err)
    (keys : list string) :
  middlewaresKeys (sortMiddlewares (Some keys) this)
  = middlewaresKeys this
      ++ first_occurrences (filter (.∉ middlewaresKeys this) keys)
  ∧ sortMiddlewares (Some keys) (sortMiddlewares (Some keys) this)
    = sortMiddlewares (Some keys) this
  ∧ (Forall (.∈ middlewaresKeys this) keys →
     sortMiddlewares (Some keys) this = this)
  ∧ (NoDup (middlewaresKeys this) →
     NoDup (middlewaresKeys (sortMiddlewares (Some keys) this))).
Proof.
  repeat split.
  - apply forEach_Set_add.
  - unfold sortMiddlewares. simpl. f_equal.
    apply forEach_Set_add_declared, Forall_forall. intros key Hkey.
    apply elem_of_forEach_Set_add. by right.
  - intros Hdeclared. destruct this. unfold sortMiddlewares. simpl in *.
    f_equal. by apply forEach_Set_add_declared.
  - intros Hset. by apply forEach_Set_add_NoDup.
Qed.

(** ** More on addRoutes: methods, unknown names, repeated calls *)

Lemma own_property_is_Some {V : Type} (o : list (string * V)) (key : string) :
  key ∈ Object_keys o → is_Some (own_property o key).
Proof.
  intros Hkey. destruct (own_property o key) eqn:Hnone; [by eexists|].
  by apply own_property_None in Hnone.
Qed.

Lemma addRoutes_routeMethod_known (route : Route Ctx Err) :
  method_known route = true →
  ∃ routeMethod, addRoutes_routeMethod route = Normal routeMethod.
Proof.
  unfold method_known, addRoutes_routeMethod.
  destruct (truthy (get route "method")); [|by eexists].
  destruct (get route "method") as [| | | |name| |]; try done.
  intros Hname%bool_decide_eq_true.
  by destruct (own_property_is_Some _ _ Hname) as [routeMethod ->]; eexists.
Qed.

Lemma addRoutes_routeMethod_unknown (route : Route Ctx Err) :
  method_known route = false →
  ∃ msg, addRoutes_routeMethod route = Throw (TypeError msg).
Proof.
  unfold method_known, addRoutes_routeMethod.
  destruct (truthy (get route "method")); [|done].
  destruct (get route "method") as [| | | |name| |]; try by eexists.
  intros Hname%bool_decide_eq_false.
  apply own_property_None in Hname. rewrite Hname. by eexists.
Qed.

(** The routes are handled one after the other: the first that throws
    ends the call. *)
Lemma addRoutes_app (routesList1 routesList2 : list (Route Ctx Err))
    (this : HappyRouter Ctx Err) :
  addRoutes (routesList1 ++ routesList2) this
  = match addRoutes routesList1 this with
    | (this', None) => addRoutes routesList2 this'
    | result => result
    end.
Proof.
  revert this. induction routesList1 as [|route routesList1 IH]; intros this.
  { done. }
  simpl. destruct (addRoutes_route this route) as [this'|error]; [|done].
  apply IH.
Qed.

(** X1.  A route whose method is neither falsy nor the name of a member
    of [REQUEST_METHODS] makes [addRoutes] throw a [TypeError] when it
    comes to it: the routes before it have been handled as they are
    without it, and neither this route nor any route after it is
    registered. *)
Theorem addRoutes_unknown_method
    (routesList1 routesList2 : list (Route Ctx Err)) (route : Route Ctx Err)
    (this : HappyRouter Ctx Err) :
  method_known route = false →
  ∃ msg,
    addRoutes (routesList1 ++ route :: routesList2) this
    = match addRoutes routesList1 this with
      | (this', None) => (this', Some (TypeError msg))
      | result => result
      end.
Proof.
  intros Hunknown.
  destruct (addRoutes_routeMethod_unknown route Hunknown) as [msg Hmsg].
  exists msg. rewrite addRoutes_app.
  destruct (addRoutes routesList1 this) as [this' [error|]]; [done|].
  simpl. unfold addRoutes_route. by rewrite Hmsg.
Qed.

(** X2.  A route with a known method that selects no registered
    middleware and whose [middlewares] field holds a truthy value that
    cannot be spread (a number, [true], a function) makes [addRoutes]
    throw a [TypeError]; nothing is registered for it. *)
Theorem addRoutes_middlewares_not_iterable (this : HappyRouter Ctx Err)
    (route : Route Ctx Err) :
  method_known route = true →
  addRoutes_middlewaresKeys this route = [] →
  truthy (get route "middlewares") = true →
  (∀ ms, get route "middlewares" ≠ VArray ms) →
  (∀ s, get route "middlewares" ≠ VString s) →
  ∃ msg, addRoutes [route] this = (this, Some (TypeError msg)).
Proof.
  intros Hknown _ Htruthy Harray Hstring. simpl. unfold addRoutes_route.
  destruct (addRoutes_routeMethod_known route Hknown) as [m ->].
  destruct (addRoutes_chain_shape this route) as (instances & -> & _).
  unfold route_middlewares. rewrite Htruthy.
  destruct (get route "middlewares") as [| | | |s| |ms];
    try (by eexists); [by destruct (Hstring s)|by destruct (Harray ms)].
Qed.

(** X4.  The selected keys are fields of the route, not reserved, and
    registered; they keep the relative order of the declared order when
    one was declared, of the fields of the route otherwise. *)
Theorem addRoutes_selection_sound (this : HappyRouter Ctx Err)
    (route : Route Ctx Err) :
  Forall (λ key, key ∈ Object_keys route ∧ (key ∉ INITIAL_ROUTE_FIELDS)
                 ∧ is_Some (middlewaresStack this !! key))
         (addRoutes_middlewaresKeys this route)
  ∧ addRoutes_middlewaresKeys this route
    `sublist_of` (if decide (middlewaresKeys this = [])
                  then Object_keys route else middlewaresKeys this).
Proof.
  split.
  - apply Forall_forall. intros key Hkey.
    by apply middlewaresKeys_subseteq, elem_of_routeMiddlewaresKeys in Hkey.
  - unfold addRoutes_middlewaresKeys. rewrite size_test.
    destruct (decide (middlewaresKeys this = [])); apply sublist_filter.
Qed.

(** X5.  On a router obtained from the constructor by calls of its
    methods, a route (an object: no field name twice) gets each registered
    middleware at most once. *)
Theorem addRoutes_selects_once (options : option (RouterOptions Ctx Err))
    (calls : list (Setup Ctx Err)) (route : Route Ctx Err) :
  route_object route →
  NoDup (addRoutes_middlewaresKeys
           (foldl setup (new_HappyRouter requestLogger options) calls) route).
Proof.
  intros Hroute.
  set (this := foldl setup (new_HappyRouter requestLogger options) calls).
  unfold addRoutes_middlewaresKeys, addRoutes_routeMiddlewaresKeys.
  destruct (0 <? length (middlewaresKeys this))%nat; apply NoDup_filter.
  - apply middlewaresKeys_NoDup.
  - exact Hroute.
Qed.

Lemma own_property_insert_ne {V : Type} (o1 o2 : list (string * V))
    (k key : string) (v : V) :
  k ≠ key →
  own_property (o1 ++ (k, v) :: o2) key = own_property (o1 ++ o2) key.
Proof.
  intros Hne. induction o1 as [|[k' w] o1 IH]; simpl.
  - by rewrite decide_False.
  - by rewrite IH.
Qed.

Lemma Array_map_ext {A B : Type} (f g : A → @Completion Err B)
    (l : list A) :
  Forall (λ x, f x = g x) l → Array_map f l = Array_map g l.
Proof.
  induction 1 as [|x l Hx _ IH]; [done|]. simpl. by rewrite Hx, IH.
Qed.

(** X6.  A field that is not reserved and names no registered middleware
    is inert: with or without it, wherever it stands in the route and
    whatever it holds, [addRoutes] registers the same layer (the same
    method, path and chain), or throws the same error. *)
Theorem addRoutes_unregistered_field_inert (this : HappyRouter Ctx Err)
    (route1 route2 : Route Ctx Err) (key : string) (v : Value Ctx Err) :
  key ∉ INITIAL_ROUTE_FIELDS →
  middlewaresStack this !! key = None →
  addRoutes_route this (route1 ++ (key, v) :: route2)
  = addRoutes_route this (route1 ++ route2).
Proof.
  intros Hreserved Hnone.
  assert (∀ key', key' ∈ INITIAL_ROUTE_FIELDS →
            get (route1 ++ (key, v) :: route2) key'
            = get (route1 ++ route2) key') as Hget.
  { intros key' Hkey'. unfold get. rewrite own_property_insert_ne; [done|].
    by intros ->. }
  assert (addRoutes_routeMiddlewaresKeys this (route1 ++ (key, v) :: route2)
          = addRoutes_routeMiddlewaresKeys this (route1 ++ route2)) as Hkeys.
  { unfold addRoutes_routeMiddlewaresKeys, Object_keys.
    rewrite !fmap_app, fmap_cons, !filter_app. f_equal. simpl.
    apply filter_cons_False. rewrite routeMiddlewaresKeys_test, Hnone.
    intros [_ []]. done. }
  assert (addRoutes_middlewaresKeys this (route1 ++ (key, v) :: route2)
          = addRoutes_middlewaresKeys this (route1 ++ route2)) as Hselected.
  { unfold addRoutes_middlewaresKeys. by rewrite Hkeys. }
  assert (addRoutes_chain this (route1 ++ (key, v) :: route2)
          = addRoutes_chain this (route1 ++ route2)) as Hchain.
  { unfold addRoutes_chain, addRoutes_routeMiddlewares, addRoutes_handler,
      route_middlewares.
    rewrite Hselected, (Hget "middlewares"), (Hget "handler")
      by (apply (bool_decide_unpack _); done).
    erewrite Array_map_ext; [done|].
    apply Forall_forall. intros key' Hkey'. unfold addRoutes_instance.
    destruct (middlewaresStack this !! key') as [f|] eqn:Hf; [|done].
    unfold get. rewrite own_property_insert_ne; [done|]. intros ->.
    rewrite Hnone in Hf. done. }
  unfold addRoutes_route, addRoutes_routeMethod.
  rewrite Hchain, (Hget "method"), (Hget "url")
    by (apply (bool_decide_unpack _); done).
  done.
Qed.

(** ** The methods of the setup phase *)

Lemma setup_router_calls (this : HappyRouter Ctx Err) (c : Setup Ctx Err) :
  ∃ calls,
    registered calls (routerInstance this) (routerInstance (setup this c)).
Proof.
  destruct c as [routesList|keys|middlewares|middleware]; simpl.
  - destruct (addRoutes_spec routesList this) as (calls & Hreg & _).
    by exists calls.
  - exists []. unfold registered. simpl. by rewrite app_nil_r.
  - exists []. unfold registered. simpl. by rewrite app_nil_r.
  - by exists [Use middleware].
Qed.

Lemma foldl_setup_router_calls (this : HappyRouter Ctx Err)
    (calls : list (Setup Ctx Err)) :
  ∃ made,
    registered made (routerInstance this)
               (routerInstance (foldl setup this calls)).
Proof.
  induction calls as [|c calls (made & Hp & Hs & Hm & Hc)] using rev_ind.
  { exists []. unfold registered. simpl. by rewrite app_nil_r. }
  rewrite foldl_app. simpl.
  destruct (setup_router_calls (foldl setup this calls) c)
    as (made' & Hp' & Hs' & Hm' & Hc').
  exists (made ++ made'). unfold registered.
  rewrite Hp', Hs', Hm', Hc', Hp, Hs, Hm, Hc. by rewrite (assoc_L (++)).
Qed.

(** X7.  Calling methods never removes or changes what the external
    router has received: the calls made so far are a prefix of the calls
    made later, so a layer once registered keeps its chain whatever is
    registered or declared afterwards. *)
Theorem setup_keeps_registered_layers (this : HappyRouter Ctx Err)
    (calls : list (Setup Ctx Err)) :
  router_calls (routerInstance this)
  `prefix_of` router_calls (routerInstance (foldl setup this calls)).
Proof.
  destruct (foldl_setup_router_calls this calls) as (made & _ & _ & _ & ->).
  by apply prefix_app_r.
Qed.

(** X8.  When logging is enabled in the options, the first call the
    external router ever receives is [use(requestLogger)], whatever
    methods are called afterwards. *)
Theorem requestLogger_used_first (options : RouterOptions Ctx Err)
    (calls : list (Setup Ctx Err)) :
  opt_logger options = Some true →
  head (router_calls
          (routerInstance
             (foldl setup (new_HappyRouter requestLogger (Some options))
                    calls)))
  = Some (Use [requestLogger]).
Proof.
  intros Hlogger.
  destruct (foldl_setup_router_calls
              (new_HappyRouter requestLogger (Some options)) calls)
    as (made & _ & _ & _ & ->).
  simpl. by rewrite Hlogger.
Qed.

(** X9.  What the constructor read in the options stays: after any calls
    of methods, the error handler, the logging flag and the prefix, strict
    and methods options of the external router are those of the
    options. *)
Theorem constructor_configuration_kept
    (options : option (RouterOptions Ctx Err))
    (calls : list (Setup Ctx Err)) :
  let this := foldl setup (new_HappyRouter requestLogger options) calls in
  errorHandler this = options ≫= opt_errorHandler
  ∧ enableLogger this = default false (options ≫= opt_logger)
  ∧ router_prefix (routerInstance this) = options ≫= opt_prefix
  ∧ router_strict (routerInstance this) = options ≫= opt_strict
  ∧ router_methods (routerInstance this) = options ≫= opt_methods.
Proof.
  simpl. split; [apply errorHandler_invariant|]. split.
  - induction calls as [|c calls IH] using rev_ind; [done|].
    rewrite foldl_app. simpl. rewrite <-IH.
    destruct c as [routesList| | |]; [|done..]. simpl.
    by destruct (addRoutes_spec routesList
                   (foldl setup (new_HappyRouter requestLogger options) calls))
      as (made & _ & _ & _ & ? & _).
  - destruct (foldl_setup_router_calls
                (new_HappyRouter requestLogger options) calls)
      as (made & -> & -> & -> & _).
    simpl. by destruct (default false (options ≫= opt_logger)).
Qed.

Lemma HappyRouter_eq (r1 r2 : HappyRouter Ctx Err) :
  enableLogger r1 = enableLogger r2 →
  errorHandler r1 = errorHandler r2 →
  routerInstance r1 = routerInstance r2 →
  middlewaresKeys r1 = middlewaresKeys r2 →
  middlewaresStack r1 = middlewaresStack r2 →
  r1 = r2.
Proof. destruct r1, r2. simpl. by intros -> -> -> -> ->. Qed.

(** X10.  [registerMiddlewares] sets the names of its argument and leaves
    the other names registered as they were: after two calls a name holds
    what the second call gave it, else what the first gave it, else what
    it held before; registering the same object twice is registering it
    once; the declared order, the error handler and the external router
    are not touched. *)
Theorem registerMiddlewares_overwrites
    (middlewares1 middlewares2 : list (string * Middlewares Ctx Err))
    (this : HappyRouter Ctx Err) :
  (∀ key,
     middlewaresStack
       (registerMiddlewares middlewares2
          (registerMiddlewares middlewares1 this)) !! key
     = match own_property middlewares2 key with
       | Some middleware => Some middleware
       | None =>
           match own_property middlewares1 key with
           | Some middleware => Some middleware
           | None => middlewaresStack this !! key
           end
       end)
  ∧ registerMiddlewares middlewares1 (registerMiddlewares middlewares1 this)
    = registerMiddlewares middlewares1 this
  ∧ middlewaresKeys (registerMiddlewares middlewares1 this)
    = middlewaresKeys this
  ∧ errorHandler (registerMiddlewares middlewares1 this) = errorHandler this
  ∧ routerInstance (registerMiddlewares middlewares1 this)
    = routerInstance this.
Proof.
  split; [|split; [|done]].
  - intros key. by rewrite !registerMiddlewares_lookup.
  - apply HappyRouter_eq; try done. apply map_eq. intros key.
    rewrite !registerMiddlewares_lookup.
    by destruct (own_property middlewares1 key).
Qed.

(** X11.  Declaring an order in two calls is declaring the two lists one
    after the other in one call, and a call without argument declares
    nothing. *)
Theorem sortMiddlewares_composes (keys1 keys2 : list string)
    (this : HappyRouter Ctx Err) :
  sortMiddlewares (Some keys2) (sortMiddlewares (Some keys1) this)
  = sortMiddlewares (Some (keys1 ++ keys2)) this
  ∧ sortMiddlewares None this = this.
Proof.
  split; [|by destruct this].
  apply HappyRouter_eq; try done. simpl. by rewrite foldl_app.
Qed.

(** X12.  When the handler of a route completes, the last step of the
    chain completes the same way, leaving the context as the handler
    left it: the error handler, configured or not, plays no part. *)
Theorem addRoutes_handler_success (this : HappyRouter Ctx Err)
    (route : Route Ctx Err) (h : RouteHandler Ctx Err) (ctx ctx' : Ctx)
    (next : Next Ctx Err) :
  get route "handler" = VFunction h →
  h ctx next = (ctx', None) →
  addRoutes_handler this route ctx next = (ctx', None).
Proof.
  intros Hhandler Hreturns. unfold addRoutes_handler, createHandler.
  rewrite Hhandler. simpl. rewrite Hreturns. by destruct (errorHandler this).
Qed.

(** X13.  When [addRoutes] returns, calling it again with more routes is
    calling it once with all of them. *)
Theorem addRoutes_composes (routesList1 routesList2 : list (Route Ctx Err))
    (this : HappyRouter Ctx Err) :
  (addRoutes routesList1 this).2 = None →
  addRoutes routesList2 (addRoutes routesList1 this).1
  = addRoutes (routesList1 ++ routesList2) this.
Proof.
  revert this. induction routesList1 as [|route routesList1 IH]; intros this.
  { done. }
  simpl. destruct (addRoutes_route this route) as [this'|error]; [|done].
  apply IH.
Qed.

Lemma own_property_elem_of {V : Type} (o : list (string * V)) (key : string)
    (v : V) :
  NoDup (Object_keys o) → own_property o key = Some v ↔ (key, v) ∈ o.
Proof.
  unfold Object_keys. induction o as [|[k w] o IH]; simpl.
  { intros _. split; [done|]. by intros ?%elem_of_nil. }
  intros [Hk Ho]%NoDup_cons. rewrite elem_of_cons. case_decide as Hkey.
  - subst k. split; [intros [= ->]; by left|].
    intros [[= ->]|Hin]; [done|]. destruct Hk.
    apply list_elem_of_fmap. by exists (key, v).
  - rewrite (IH Ho). split; [by right|]. intros [[= ? ?]|?]; [done|done].
Qed.

Lemma get_Permutation (route1 route2 : Route Ctx Err) (key : string) :
  route_object route1 → route1 ≡ₚ route2 → get route1 key = get route2 key.
Proof.
  intros Hobject Hperm.
  assert (route_object route2) as Hobject2.
  { unfold route_object, Object_keys in *. by rewrite <-Hperm. }
  unfold get. destruct (own_property route1 key) as [v|] eqn:Hv.
  - apply own_property_elem_of in Hv; [|done]. rewrite Hperm in Hv.
    apply own_property_elem_of in Hv; [|done]. by rewrite Hv.
  - apply own_property_None in Hv.
    assert (own_property route2 key = None) as ->; [|done].
    apply own_property_None. unfold Object_keys in *. by rewrite <-Hperm.
Qed.

(** X14.  Once an order is declared, the order in which a route lists its
    fields does not matter: two routes with the same fields, listed in
    different orders, get the same layer. *)
Theorem addRoutes_declared_order_ignores_field_order
    (this : HappyRouter Ctx Err) (route1 route2 : Route Ctx Err) :
  middlewaresKeys this ≠ [] →
  route_object route1 →
  route1 ≡ₚ route2 →
  addRoutes_route this route1 = addRoutes_route this route2.
Proof.
  intros Hdeclared Hobject Hperm.
  pose proof (λ key, get_Permutation route1 route2 key Hobject Hperm) as Hget.
  assert (addRoutes_middlewaresKeys this route1
          = addRoutes_middlewaresKeys this route2) as Hselected.
  { unfold addRoutes_middlewaresKeys. rewrite size_test.
    rewrite decide_False by done. apply list_filter_iff. intros key.
    rewrite !Is_true_true, !includes_spec, !elem_of_routeMiddlewaresKeys.
    unfold Object_keys. by rewrite Hperm. }
  assert (addRoutes_chain this route1 = addRoutes_chain this route2) as Hchain.
  { unfold addRoutes_chain, addRoutes_routeMiddlewares, addRoutes_handler,
      route_middlewares.
    rewrite Hselected, (Hget "middlewares"), (Hget "handler").
    erewrite Array_map_ext; [done|].
    apply Forall_forall. intros key _. unfold addRoutes_instance.
    by rewrite Hget. }
  unfold addRoutes_route, addRoutes_routeMethod.
  by rewrite Hchain, (Hget "method"), (Hget "url").
Qed.

End Properties.

(** * Properties of lib/logger.ts *)

Section Logger.
Context `{NumberText}.

Lemma String_app_cons (c : Ascii.ascii) (s1 s2 : string) :
  String c s1 +:+ s2 = String c (s1 +:+ s2).
Proof. done. Qed.

Lemma String_app_nil_l (s : string) : "" +:+ s = s.
Proof. done. Qed.

Lemma String_app_assoc (s1 s2 s3 : string) :
  (s1 +:+ s2) +:+ s3 = s1 +:+ (s2 +:+ s3).
Proof.
  induction s1 as [|c s1 IH]; [done|]. by rewrite !String_app_cons, IH.
Qed.

Lemma String_app_nil_r (s : string) : s +:+ "" = s.
Proof. induction s as [|c s IH]; [done|]. by rewrite String_app_cons, IH. Qed.

Lemma String_length_app (s1 s2 : string) :
  String.length (s1 +:+ s2) = (String.length s1 + String.length s2)%nat.
Proof.
  induction s1 as [|c s1 IH]; [done|]. rewrite String_app_cons. simpl.
  by rewrite IH.
Qed.

Lemma String_length_repeat (c : Ascii.ascii) (count : nat) :
  String.length (String_repeat (String c "") count) = count.
Proof.
  induction count as [|count IH]; [done|].
  change (String.length (String c (String_repeat (String c "") count))
          = S count).
  simpl. by rewrite IH.
Qed.

Lemma String_drop_app (s1 s2 : string) :
  String_drop (String.length s1) (s1 +:+ s2) = s2.
Proof.
  induction s1 as [|c s1 IH]; [|by rewrite String_app_cons].
  rewrite String_app_nil_l. by destruct s2.
Qed.

Lemma String_repeat_S_r (s : string) (count : nat) :
  String_repeat s (S count) = String_repeat s count +:+ s.
Proof.
  induction count as [|count IH]; [simpl; by rewrite String_app_nil_r|].
  change (s +:+ String_repeat s (S count)
          = (s +:+ String_repeat s count) +:+ s).
  by rewrite IH, String_app_assoc.
Qed.

(** [s.slice(-count)] of a string that ends with [count] characters. *)
Lemma String_slice_last (count : nat) (s1 s2 : string) :
  (1 ≤ count)%nat → String.length s2 = count →
  String_slice (-1 * Z.of_nat count) (s1 +:+ s2) = s2.
Proof.
  intros Hcount Hlen. unfold String_slice.
  rewrite String_length_app, Hlen.
  replace (-1 * Z.of_nat count <? 0)%Z with true
    by (symmetry; apply Z.ltb_lt; lia).
  replace (Z.to_nat _) with (String.length s1) by lia.
  apply String_drop_app.
Qed.

Lemma String_repeat_add (s : string) (a b : nat) :
  String_repeat s (a + b) = String_repeat s a +:+ String_repeat s b.
Proof.
  induction a as [|a IH]; [done|].
  change (s +:+ String_repeat s (a + b)
          = (s +:+ String_repeat s a) +:+ String_repeat s b).
  by rewrite IH, String_app_assoc.
Qed.

Lemma String_length_drop (n : nat) (s : string) :
  String.length (String_drop n s) = (String.length s - n)%nat.
Proof.
  revert s. induction n as [|n IH]; intros [|c s]; simpl; done.
Qed.

(** [s.slice(-count)] has [count] characters when [s] has as many. *)
Lemma String_slice_length (count : nat) (s : string) :
  (1 ≤ count)%nat → (count ≤ String.length s)%nat →
  String.length (String_slice (-1 * Z.of_nat count) s) = count.
Proof.
  intros Hcount Hlen. unfold String_slice.
  replace (-1 * Z.of_nat count <? 0)%Z with true
    by (symmetry; apply Z.ltb_lt; lia).
  rewrite String_length_drop. lia.
Qed.

Lemma Number_toString_safe (num : N) :
  (num ≤ MAX_SAFE_INTEGER)%N → Number_toString num = pretty num.
Proof.
  intros Hsafe. unfold Number_toString.
  by rewrite (proj2 (N.leb_le _ _) Hsafe).
Qed.

Lemma pretty_N_go_app (x : N) (s : string) :
  pretty_N_go x s = pretty_N_go x "" +:+ s.
Proof.
  revert s. induction (N.lt_wf_0 x) as [x _ IH]; intros s.
  destruct (decide (x = 0)%N) as [->|Hx]; [by rewrite !pretty_N_go_0|].
  assert (x `div` 10 < x)%N as Hlt by (apply N.div_lt; lia).
  rewrite (pretty_N_go_step x s), (pretty_N_go_step x "") by lia.
  rewrite (IH _ Hlt (String _ s)), (IH _ Hlt (String _ "")).
  by rewrite String_app_assoc.
Qed.

Lemma low_digits_length (count : nat) (num : N) :
  String.length (low_digits count num) = count.
Proof.
  revert num. induction count as [|count IH]; intros num; simpl; [done|].
  rewrite String_length_app, IH. simpl. lia.
Qed.

Lemma low_digits_0 (count : nat) :
  low_digits count 0 = String_repeat "0" count.
Proof.
  induction count as [|count IH]; [done|].
  rewrite String_repeat_S_r, <-IH. done.
Qed.

(** The digits [pretty_N_go] writes before [s], after [count] zeros, end
    with the last [count] digits of the number. *)
Lemma pretty_N_go_low_digits (count : nat) (x : N) (s : string) :
  ∃ high,
    String_repeat "0" count +:+ pretty_N_go x s
    = high +:+ (low_digits count x +:+ s).
Proof.
  revert x s. induction count as [|count IH]; intros x s.
  { exists (pretty_N_go x ""). simpl. apply pretty_N_go_app. }
  destruct (decide (x = 0)%N) as [->|Hx].
  - exists "". by rewrite pretty_N_go_0, low_digits_0.
  - rewrite pretty_N_go_step by lia.
    destruct (IH (x `div` 10)%N (String (pretty_N_char (x `mod` 10)) s))
      as [high Hhigh].
    exists ("0" +:+ high). simpl.
    by rewrite !String_app_assoc, Hhigh.
Qed.

Lemma addZeroBeforeNumber_low_digits (num : N) (count : nat) :
  (1 ≤ count)%nat → (num ≤ MAX_SAFE_INTEGER)%N →
  addZeroBeforeNumber num (Some count) = low_digits count num.
Proof.
  intros Hcount Hsafe. unfold addZeroBeforeNumber.
  rewrite Number_toString_safe by done. simpl.
  assert (∃ high, String_repeat "0" count +:+ pretty num
                  = high +:+ low_digits count num) as [high ->].
  { unfold pretty, pretty_N. destruct (decide (num = 0)%N) as [->|Hnum].
    - exists "0". rewrite low_digits_0, <-String_repeat_S_r. done.
    - destruct (pretty_N_go_low_digits count num "") as [high Hhigh].
      exists high. by rewrite Hhigh, String_app_nil_r. }
  apply String_slice_last; [done|apply low_digits_length].
Qed.

Lemma low_digits_mod (count : nat) (num : N) :
  low_digits count num = low_digits count (num `mod` 10 ^ N.of_nat count).
Proof.
  revert num. induction count as [|count IH]; intros num; [done|]. simpl.
  replace (10 ^ N.of_nat (S count))%N with (10 * 10 ^ N.of_nat count)%N
    by (rewrite Nat2N.inj_succ, N.pow_succ_r'; done).
  rewrite N.Div0.mod_mul_r.
  set (low := (num `mod` 10)%N). set (p := (10 ^ N.of_nat count)%N).
  set (high := ((num `div` 10) `mod` p)%N).
  assert (low < 10)%N as Hlow by (apply N.mod_lt; done).
  replace ((low + 10 * high) `div` 10)%N with high
    by (symmetry; rewrite N.mul_comm, N.div_add by done;
        rewrite (N.div_small low) by done; lia).
  replace ((low + 10 * high) `mod` 10)%N with low
    by (symmetry; rewrite N.mul_comm, N.Div0.mod_add;
        by apply N.mod_small).
  by rewrite (IH (num `div` 10)%N).
Qed.

Lemma low_digits_pretty (count : nat) (num : N) :
  (num < 10 ^ N.of_nat count)%N →
  ∃ zeros, low_digits count num
           = String_repeat "0" zeros +:+ pretty_N_go num "".
Proof.
  revert num. induction count as [|count IH]; intros num Hnum.
  { exists 0%nat. simpl in Hnum. assert (num = 0%N) as -> by lia. done. }
  destruct (decide (num = 0)%N) as [->|Hpos].
  { exists (S count).
    by rewrite low_digits_0, pretty_N_go_0, String_app_nil_r. }
  destruct (IH (num `div` 10)%N) as [zeros Hzeros].
  { apply N.Div0.div_lt_upper_bound.
    by rewrite Nat2N.inj_succ, N.pow_succ_r' in Hnum. }
  exists zeros. simpl. rewrite Hzeros, String_app_assoc.
  rewrite (pretty_N_go_step num) by lia.
  by rewrite (pretty_N_go_app _ (String _ "")).
Qed.

Lemma addZeroBeforeNumber_length (num : N) (count : nat) :
  String.length (addZeroBeforeNumber num (Some (S count))) = S count.
Proof.
  unfold addZeroBeforeNumber. cbv zeta.
  change (default 2%nat (Some (S count))) with (S count).
  rewrite String_slice_length; [done|lia|].
  rewrite String_length_app, String_length_repeat. lia.
Qed.

(** X15.  With a positive [count], and with the default 2,
    [addZeroBeforeNumber] returns exactly [count] characters, whatever the
    number; with [count] 0 it returns the number as it is written, not the
    empty string, because [slice(-0)] is [slice(0)]. *)
Theorem addZeroBeforeNumber_width (num : N) (count : nat) :
  String.length (addZeroBeforeNumber num (Some (S count))) = S count
  ∧ String.length (addZeroBeforeNumber num None) = 2%nat
  ∧ addZeroBeforeNumber num (Some 0%nat) = Number_toString num.
Proof.
  split; [|split].
  - apply addZeroBeforeNumber_length.
  - apply (addZeroBeforeNumber_length num 1).
  - unfold addZeroBeforeNumber, String_slice. simpl.
    by replace (Z.to_nat _) with 0%nat by lia.
Qed.

(** X16.  Of a number the template literal writes in decimal (one up to
    [MAX_SAFE_INTEGER]) [addZeroBeforeNumber] keeps the last [count]
    digits only: the number gives what the number modulo ten to the
    [count] gives, so one with more digits loses the leading ones. *)
Theorem addZeroBeforeNumber_truncates (num : N) (count : nat) :
  (num ≤ MAX_SAFE_INTEGER)%N →
  addZeroBeforeNumber num (Some (S count))
  = addZeroBeforeNumber (num `mod` 10 ^ N.of_nat (S count)) (Some (S count)).
Proof.
  intros Hsafe. rewrite !addZeroBeforeNumber_low_digits; [|lia|..|lia|done].
  - apply low_digits_mod.
  - etrans; [apply N.Div0.mod_le|done].
Qed.

(** X17.  A number written with at most [count] characters comes out
    whole, after as many zeros as it takes to reach [count] characters; so
    does, in decimal, a number below ten to the [count]. *)
Theorem addZeroBeforeNumber_pads (num : N) (count : nat) :
  ((String.length (Number_toString num) ≤ S count)%nat →
   addZeroBeforeNumber num (Some (S count))
   = String_repeat "0" (S count - String.length (Number_toString num))
       +:+ Number_toString num)
  ∧ ((num < 10 ^ N.of_nat (S count))%N → (num ≤ MAX_SAFE_INTEGER)%N →
     addZeroBeforeNumber num (Some (S count))
     = String_repeat "0" (S count - String.length (pretty num))
         +:+ pretty num).
Proof.
  split.
  - intros Hlen. unfold addZeroBeforeNumber. cbv zeta.
    change (default 2%nat (Some (S count))) with (S count).
    set (text := Number_toString num) in *.
    replace (String_repeat "0" (S count))
      with (String_repeat "0" (String.length text)
              +:+ String_repeat "0" (S count - String.length text))
      by (rewrite <-String_repeat_add; f_equal; lia).
    rewrite String_app_assoc. apply String_slice_last; [lia|].
    rewrite String_length_app, String_length_repeat. lia.
  - intros Hnum Hsafe. rewrite addZeroBeforeNumber_low_digits by (done || lia).
    assert (∃ zeros, low_digits (S count) num
                     = String_repeat "0" zeros +:+ pretty num)
      as [zeros Hzeros].
    { unfold pretty, pretty_N. destruct (decide (num = 0)%N) as [->|Hpos].
      - exists count. by rewrite low_digits_0, String_repeat_S_r.
      - by apply low_digits_pretty. }
    rewrite Hzeros. do 2 f_equal.
    apply (f_equal String.length) in Hzeros.
    rewrite low_digits_length, String_length_app in Hzeros.
    rewrite String_length_repeat in Hzeros. lia.
Qed.

Lemma String_app_inj_length (s1 s2 t1 t2 : string) :
  String.length t1 = String.length t2 →
  s1 +:+ t1 = s2 +:+ t2 → s1 = s2 ∧ t1 = t2.
Proof.
  intros Hlen. revert s2.
  induction s1 as [|c1 s1 IH]; intros [|c2 s2] Heq.
  - done.
  - rewrite String_app_nil_l in Heq. subst t1.
    rewrite String_app_cons in Hlen. simpl in Hlen.
    rewrite String_length_app in Hlen. lia.
  - rewrite String_app_nil_l in Heq. subst t2.
    rewrite String_app_cons in Hlen. simpl in Hlen.
    rewrite String_length_app in Hlen. lia.
  - rewrite !String_app_cons in Heq. injection Heq as -> Heq.
    by destruct (IH _ Heq) as [-> ->].
Qed.

Lemma String_app_inj_length_l (s1 s2 t1 t2 : string) :
  String.length s1 = String.length s2 →
  s1 +:+ t1 = s2 +:+ t2 → s1 = s2 ∧ t1 = t2.
Proof.
  intros Hlen Heq. apply String_app_inj_length; [|done].
  apply (f_equal String.length) in Heq.
  rewrite !String_length_app in Heq. lia.
Qed.

Lemma low_digits_inj (count : nat) (a b : N) :
  (a < 10 ^ N.of_nat count)%N → (b < 10 ^ N.of_nat count)%N →
  low_digits count a = low_digits count b → a = b.
Proof.
  revert a b. induction count as [|count IH]; intros a b Ha Hb Heq.
  { simpl in Ha, Hb. lia. }
  rewrite Nat2N.inj_succ, N.pow_succ_r' in Ha, Hb. simpl in Heq.
  apply String_app_inj_length in Heq as [Hhigh [= Hlow]]; [|done].
  apply pretty_N_char_inj in Hlow; [|by apply N.mod_lt..].
  apply IH in Hhigh; [|by apply N.Div0.div_lt_upper_bound..].
  rewrite (N.div_mod a 10), (N.div_mod b 10) by done. by rewrite Hhigh, Hlow.
Qed.

Lemma addZeroBeforeNumber_inj (count : nat) (a b : N) :
  (a < 10 ^ N.of_nat (S count))%N → (b < 10 ^ N.of_nat (S count))%N →
  (a ≤ MAX_SAFE_INTEGER)%N → (b ≤ MAX_SAFE_INTEGER)%N →
  addZeroBeforeNumber a (Some (S count))
  = addZeroBeforeNumber b (Some (S count)) →
  a = b.
Proof.
  intros Ha Hb Hsafea Hsafeb.
  rewrite !addZeroBeforeNumber_low_digits by (done || lia).
  by apply low_digits_inj.
Qed.


(** X19.  Two dates whose fields are in the ranges of a [Date] and that
    differ in a field have different timestamps: the fields can be read
    back from the timestamp. *)
Theorem formatTimestamp_inj (d1 d2 : Date) :
  Date_in_range d1 → Date_in_range d2 →
  formatTimestamp d1 = formatTimestamp d2 → d1 = d2.
Proof.
  intros (Hmo1 & Hd1 & Hh1 & Hmi1 & Hs1 & Hms1)
         (Hmo2 & Hd2 & Hh2 & Hmi2 & Hs2 & Hms2) Heq.
  unfold formatTimestamp in Heq. cbv zeta in Heq.
  change (addZeroBeforeNumber ?n None)
    with (addZeroBeforeNumber n (Some 2%nat)) in Heq.
  pose proof (λ n, addZeroBeforeNumber_length n 1) as Hw2.
  pose proof (λ n, addZeroBeforeNumber_length n 2) as Hw3.
  apply String_app_inj_length in Heq as [Hyear Heq];
    [|by rewrite !String_length_app, !Hw2, !Hw3].
  apply String_app_inj_length_l in Heq as [_ Heq]; [|done].
  apply String_app_inj_length_l in Heq as [Hmonth Heq]; [|by rewrite !Hw2].
  apply String_app_inj_length_l in Heq as [_ Heq]; [|done].
  apply String_app_inj_length_l in Heq as [Hdate Heq]; [|by rewrite !Hw2].
  apply String_app_inj_length_l in Heq as [_ Heq]; [|done].
  apply String_app_inj_length_l in Heq as [Hhours Heq]; [|by rewrite !Hw2].
  apply String_app_inj_length_l in Heq as [_ Heq]; [|done].
  apply String_app_inj_length_l in Heq as [Hminutes Heq]; [|by rewrite !Hw2].
  apply String_app_inj_length_l in Heq as [_ Heq]; [|done].
  apply String_app_inj_length_l in Heq as [Hseconds Heq]; [|by rewrite !Hw2].
  apply String_app_inj_length_l in Heq as [_ Hms]; [|done].
  apply (inj pretty) in Hyear.
  apply addZeroBeforeNumber_inj in Hmonth; [|unfold MAX_SAFE_INTEGER; simpl; lia..].
  apply addZeroBeforeNumber_inj in Hdate; [|unfold MAX_SAFE_INTEGER; simpl; lia..].
  apply addZeroBeforeNumber_inj in Hhours; [|unfold MAX_SAFE_INTEGER; simpl; lia..].
  apply addZeroBeforeNumber_inj in Hminutes; [|unfold MAX_SAFE_INTEGER; simpl; lia..].
  apply addZeroBeforeNumber_inj in Hseconds; [|unfold MAX_SAFE_INTEGER; simpl; lia..].
  apply addZeroBeforeNumber_inj in Hms; [|unfold MAX_SAFE_INTEGER; simpl; lia..].
  destruct d1, d2. simpl in *. f_equal; try done. lia.
Qed.

End Logger.

Example request_sorted :
  request router_sorted route_full
  = Some ([ "thirdMiddlewares"; "firstMiddlewares"; "secondMiddlewares";
            "firstMiddlewaresInRoute"; "secondMiddlewaresInRoute";
            "Hello World" ], None).
Proof. reflexivity. Qed.

Example request_unsorted :
  request router_unsorted route_two
  = Some (["undefined"; "firstMiddlewares"; "Hello World"], None).
Proof. reflexivity. Qed.

Example request_bare :
  request router_sorted route_bare = Some ([], None).
Proof. reflexivity. Qed.

(** ** The claims at these scenarios *)

Lemma addRoutes_registry_order_witness :
  ∃ instances,
    Forall2 (resolved_from router_sorted route_two)
            ["firstMiddlewares"; "secondMiddlewares"] instances
    ∧ addRoutes [route_two] router_sorted
      = (with_layer router_sorted route_two "all"
           (instances ++ [] ++ [addRoutes_handler router_sorted route_two]),
         None).
Proof.
  apply (addRoutes_registry_order router_sorted route_two "/two" "all" []);
    [|reflexivity..].
  repeat constructor; by eexists.
Defined.

Lemma addRoutes_route_middlewares_position_witness :
  ∃ chain,
    addRoutes [route_full] router_sorted
    = (with_layer router_sorted route_full "get" chain, None)
    ∧ Forall2 (resolved_from router_sorted route_full)
        ["thirdMiddlewares"; "firstMiddlewares"; "secondMiddlewares"]
        (take 3 chain)
    ∧ take 2 (drop 3 chain)
      = [push "firstMiddlewaresInRoute"; push "secondMiddlewaresInRoute"]
    ∧ drop 5 chain = [addRoutes_handler router_sorted route_full].
Proof.
  exact (addRoutes_route_middlewares_position router_sorted route_full
           "/" "get"
           [push "firstMiddlewaresInRoute"; push "secondMiddlewaresInRoute"]
           eq_refl eq_refl eq_refl).
Defined.



(** C3 as stated fails when the error handler throws: the error leaves
    the wrapped call. *)
Lemma createHandler_errorHandler_counterexample :
  errorHandler (new_HappyRouter logger (Some options_rethrow)) = Some rethrow
  ∧ call (VFunction failing) [] downstream
    = (["handler"], Some (Thrown "Unexpected end of JSON input"))
  ∧ createHandler (new_HappyRouter logger (Some options_rethrow))
                  (VFunction failing) [] downstream
    = (["handler"], Some (Thrown "Unexpected end of JSON input")).
Proof. repeat split. Qed.

Lemma createHandler_errorHandler_witness :
  createHandler
    (foldl setup (new_HappyRouter logger (Some options_report)) setup_failing)
    (VFunction failing) [] downstream
  = (["handler"; "errorHandler: Unexpected end of JSON input"], None).
Proof.
  destruct (createHandler_errorHandler logger options_report report
              setup_failing (VFunction failing) [] ["handler"] downstream
              (Thrown "Unexpected end of JSON input") eq_refl eq_refl)
    as [_ Hreturns].
  apply Hreturns. reflexivity.
Defined.

Lemma createHandler_no_errorHandler_witness :
  createHandler (foldl setup (new_HappyRouter logger None) setup_failing)
                (VFunction failing) [] downstream
  = (["handler"], Some (Thrown "Unexpected end of JSON input")).
Proof.
  apply (createHandler_no_errorHandler logger None setup_failing
           (VFunction failing) [] ["handler"] downstream
           (Thrown "Unexpected end of JSON input")); reflexivity.
Defined.

Lemma sortMiddlewares_additive_idempotent_witness :
  sortMiddlewares (Some ["secondMiddlewares"; "thirdMiddlewares";
                         "secondMiddlewares"]) router_sorted
  = router_sorted
  ∧ NoDup (middlewaresKeys
             (sortMiddlewares (Some ["secondMiddlewares"; "thirdMiddlewares";
                                     "secondMiddlewares"]) router_sorted)).
Proof.
  destruct (sortMiddlewares_additive_idempotent router_sorted
              ["secondMiddlewares"; "thirdMiddlewares"; "secondMiddlewares"])
    as (_ & _ & Hdeclared & Hset).
  split.
  - apply Hdeclared. by apply (bool_decide_unpack _).
  - apply Hset. by apply (bool_decide_unpack _).
Defined.


Lemma addRoutes_deterministic_witness :
  ∃ calls,
    registered calls (routerInstance router_sorted)
      (routerInstance (addRoutes [route_full; route_two] router_sorted).1)
    ∧ registered calls (routerInstance router_sorted_two)
        (routerInstance (addRoutes [route_full; route_two] router_sorted_two).1)
    ∧ (addRoutes [route_full; route_two] router_sorted).2
      = (addRoutes [route_full; route_two] router_sorted_two).2.
Proof.
  apply (addRoutes_deterministic router_sorted router_sorted_two
           [route_full; route_two]); reflexivity.
Defined.

(** C6 as stated fails on a route without handler: its chain is the one
    step that does nothing, not the empty chain. *)
Lemma ends_without_terminal_step_counterexample :
  get route_bare "handler" = VUndefined
  ∧ addRoutes_chain router_unsorted route_bare
    = Normal [VFunction (addRoutes_handler router_unsorted route_bare)]
  ∧ addRoutes [route_bare] router_unsorted
    = (with_layer router_unsorted route_bare "all"
         [addRoutes_handler router_unsorted route_bare], None)
  ∧ compose [addRoutes_handler router_unsorted route_bare] [] downstream
    = ([], None)
  ∧ compose (@nil LogMiddleware) [] downstream = (["downstream"], None)
  ∧ ¬ ends_without_terminal_step router_unsorted route_bare.
Proof.
  repeat split.
  intros (instances & middlewares & Hms & Hchain & Hinstances).
  apply Forall2_nil_inv_l in Hinstances as ->.
  injection Hms as <-. discriminate Hchain.
Qed.

(** A middleware registered as [handler], and declared, is not made from
    the [handler] field of a route. *)
Example reserved_name_registered :
  addRoutes_chain router_reserved route_failing
  = Normal [VFunction (addRoutes_handler router_reserved route_failing)]
  ∧ request router_reserved route_failing
    = Some (["handler"], Some (Thrown "Unexpected end of JSON input")).
Proof. split; reflexivity. Qed.

(** ** The further properties at these scenarios *)

Lemma addRoutes_selects_once_witness :
  NoDup (addRoutes_middlewaresKeys
           (foldl setup (new_HappyRouter logger None) setup_failing)
           route_full).
Proof.
  apply (addRoutes_selects_once logger None setup_failing route_full).
  by apply (bool_decide_unpack _).
Defined.

Lemma addRoutes_unregistered_field_inert_witness :
  addRoutes_route router_sorted
    ([("url", VString "/two")]
       ++ ("description", VString "two of three")
       :: [ ("secondMiddlewares", VUndefined);
            ("firstMiddlewares", VString "firstMiddlewares");
            ("handler", VFunction hello) ])
  = addRoutes_route router_sorted
      ([("url", VString "/two")]
         ++ [ ("secondMiddlewares", VUndefined);
              ("firstMiddlewares", VString "firstMiddlewares");
              ("handler", VFunction hello) ]).
Proof.
  apply (addRoutes_unregistered_field_inert router_sorted).
  - by apply (bool_decide_unpack _).
  - reflexivity.
Defined.

Lemma requestLogger_used_first_witness :
  head (router_calls
          (routerInstance
             (foldl setup (new_HappyRouter logger (Some options_report))
                    setup_failing)))
  = Some (Use [logger]).
Proof.
  apply (requestLogger_used_first logger options_report setup_failing).
  reflexivity.
Defined.

Lemma addRoutes_handler_success_witness :
  addRoutes_handler router_sorted route_full [] downstream
  = (["Hello World"], None).
Proof.
  apply (addRoutes_handler_success router_sorted route_full hello);
    reflexivity.
Defined.

Lemma addRoutes_composes_witness :
  addRoutes [route_two] (addRoutes [route_full] router_sorted).1
  = addRoutes ([route_full] ++ [route_two]) router_sorted.
Proof.
  apply (addRoutes_composes [route_full] [route_two] router_sorted).
  reflexivity.
Defined.

Lemma addRoutes_declared_order_ignores_field_order_witness :
  addRoutes_route router_sorted route_two
  = addRoutes_route router_sorted route_two_swapped.
Proof.
  apply (addRoutes_declared_order_ignores_field_order router_sorted
           route_two route_two_swapped).
  - discriminate.
  - by apply (bool_decide_unpack _).
  - apply perm_skip, perm_swap.
Defined.

Lemma addRoutes_unknown_method_witness :
  ∃ msg,
    addRoutes ([route_full] ++ route_head :: [route_two]) router_sorted
    = match addRoutes [route_full] router_sorted with
      | (this', None) => (this', Some (TypeError msg))
      | result => result
      end.
Proof.
  apply (addRoutes_unknown_method [route_full] [route_two] route_head
           router_sorted).
  reflexivity.
Defined.

Lemma addRoutes_middlewares_not_iterable_witness :
  ∃ msg,
    addRoutes [route_number] router_sorted
    = (router_sorted, Some (TypeError msg)).
Proof.
  apply (addRoutes_middlewares_not_iterable router_sorted route_number);
    [reflexivity..|discriminate|discriminate].
Defined.

Lemma addZeroBeforeNumber_truncates_witness :
  @addZeroBeforeNumber text_unused 123 (Some 2%nat)
  = @addZeroBeforeNumber text_unused (123 `mod` 10 ^ N.of_nat 2) (Some 2%nat).
Proof.
  apply (@addZeroBeforeNumber_truncates text_unused 123 1).
  by vm_compute.
Defined.

Lemma addZeroBeforeNumber_pads_witness :
  @addZeroBeforeNumber text_unused 9 (Some 2%nat)
  = String_repeat "0" (2 - String.length (pretty 9%N)) +:+ pretty 9%N.
Proof.
  apply (proj2 (@addZeroBeforeNumber_pads text_unused 9 1)); by vm_compute.
Defined.

Lemma formatTimestamp_inj_witness : date_example = date_example.
Proof.
  apply (@formatTimestamp_inj text_unused date_example date_example);
    [by vm_compute..|reflexivity].
Defined.

(** The example of the documentation of [RouterOptions.logger]. *)
Example formatTimestamp_example :
  @formatTimestamp text_unused date_example = "2020-01-01 00:00:00::001"
  ∧ @addZeroBeforeNumber text_unused 123 None = "23".
Proof. split; reflexivity. Qed.
